(** * Trend-following bot: signal-and-state engine of [bot.py]

    A shallow embedding of the position state machine, the notification
    dedup gate and the state store of [bot.py], and the properties its
    specification states about them; then the download retries, the log
    rotation and the start-up sequence, and further properties of the
    whole read off the code.

    Conventions of the embedding.
    - A Python value that can sit in the state dictionary (everything
      [json.load] can produce) is a [value]; dictionaries are finite maps
      keyed by strings.
    - Python floats are IEEE 754 binary64 numbers, modelled by the
      standard library's [spec_float] at precision 53, with its correctly
      rounded operations.  Integers are unbounded.  As in Python, mixed
      arithmetic converts the integer to the nearest float and raises
      when it is out of range, the quotient of two integers is the exact
      quotient rounded once, and an integer is compared with a float
      exactly.
    - A Python exception is the outcome [Raise]; which exception it is
      never matters, every handler of the program catches [Exception].
    - The interpreter-level effects (the local [state] dictionary, the
      files, the clock, the notifications posted) are threaded through a
      [world].  Whatever was mutated before an exception stays mutated.
    - Log lines ([write_log]) are not part of the model. *)

From Stdlib Require Import ZArith String List Bool Lia.
From Stdlib Require Import Floats.SpecFloat.
From stdpp Require Import base option gmap strings list fin_maps pretty.

Local Open Scope string_scope.
Local Open Scope Z_scope.

(** ** Values and numbers *)

#[warnings="-register-all"]
Inductive value : Type :=
| VNone
| VBool (b : bool)
| VInt (z : Z)
| VFloat (f : spec_float)
| VStr (s : string)
| VList (l : list value)
| VDict (d : gmap string value).

Inductive outcome (A : Type) : Type :=
| Ok (a : A)
| Raise.
Arguments Ok {A} a.
Arguments Raise {A}.

Definition obind {A B} (o : outcome A) (k : A → outcome B) : outcome B :=
  match o with
  | Ok a => k a
  | Raise => Raise
  end.

Notation "x <~ o ;; k" := (obind o (fun x => k))
  (at level 100, o at next level, right associativity).

Fixpoint ofold {A B} (f : A → B → outcome A) (a : A) (l : list B) : outcome A :=
  match l with
  | [] => Ok a
  | b :: l' => a' <~ f a b ;; ofold f a' l'
  end.

(** Binary64. *)
Definition prec : Z := 53.
Definition emax : Z := 1024.

Definition float_of_Z (z : Z) : spec_float := binary_normalize prec emax z 0 false.
Definition fadd : spec_float → spec_float → spec_float := SFadd prec emax.
Definition fsub : spec_float → spec_float → spec_float := SFsub prec emax.
Definition fmul : spec_float → spec_float → spec_float := SFmul prec emax.
Definition fdiv : spec_float → spec_float → spec_float := SFdiv prec emax.
Definition fltb : spec_float → spec_float → bool := SFltb.
Definition fleb : spec_float → spec_float → bool := SFleb.
Definition feqb : spec_float → spec_float → bool := SFeqb.

Definition is_fzero (f : spec_float) : bool :=
  match f with
  | S754_zero _ => true
  | _ => false
  end.

(** A Python number: [int] (and [bool], its subclass) or [float]. *)
Inductive num : Type :=
| NInt (z : Z)
| NFloat (f : spec_float).

(** An integer operand of float arithmetic is converted first: to the
    nearest float, ties to even, and with an [OverflowError] when that is
    beyond the range. *)
Definition int_to_float (z : Z) : outcome spec_float :=
  match float_of_Z z with
  | S754_infinity _ => Raise
  | f => Ok f
  end.

Definition float_of_num (n : num) : outcome spec_float :=
  match n with
  | NInt z => int_to_float z
  | NFloat f => Ok f
  end.

Definition as_num (v : value) : outcome num :=
  match v with
  | VBool b => Ok (NInt (if b then 1 else 0))
  | VInt z => Ok (NInt z)
  | VFloat f => Ok (NFloat f)
  | _ => Raise
  end.

(** [a - b]: exact on integers, in floats (after conversion) otherwise. *)
Definition num_sub (a b : num) : outcome num :=
  match a, b with
  | NInt x, NInt y => Ok (NInt (x - y))
  | _, _ => x <~ float_of_num a ;; y <~ float_of_num b ;; Ok (NFloat (fsub x y))
  end.

(** An integer against a float: Python compares the two exactly, without
    converting the integer; nothing compares with NaN. *)
Definition int_float_compare (z : Z) (f : spec_float) : option comparison :=
  match f with
  | S754_nan => None
  | S754_infinity s => Some (if s then Gt else Lt)
  | S754_zero _ => Some (z ?= 0)
  | S754_finite s m e =>
      let v := if s then Z.neg m else Z.pos m in
      Some (if 0 <=? e then z ?= v * 2 ^ e else z * 2 ^ (- e) ?= v)
  end.

Definition num_compare (a b : num) : option comparison :=
  match a, b with
  | NInt x, NInt y => Some (x ?= y)
  | NInt x, NFloat g => int_float_compare x g
  | NFloat f, NInt y => option_map CompOpp (int_float_compare y f)
  | NFloat f, NFloat g => SFcompare f g
  end.

Definition num_ltb (a b : num) : bool :=
  match a, b with
  | NInt x, NInt y => x <? y
  | _, _ => match num_compare a b with Some Lt => true | _ => false end
  end.

Definition num_eqb (a b : num) : bool :=
  match a, b with
  | NInt x, NInt y => x =? y
  | _, _ => match num_compare a b with Some Eq => true | _ => false end
  end.

Definition num_is_zero (a : num) : bool :=
  match a with
  | NInt z => z =? 0
  | NFloat f => is_fzero f
  end.

(** [a - b] on values; a [TypeError] unless both are numbers. *)
Definition py_sub (a b : value) : outcome num :=
  x <~ as_num a ;; y <~ as_num b ;; num_sub x y.

(** The integer [z] as an unrounded float: mantissa [|z|], exponent 0. *)
Definition raw_of_Z (z : Z) : spec_float :=
  match z with
  | Z0 => S754_zero false
  | Zpos p => S754_finite false p 0
  | Zneg p => S754_finite true p 0
  end.

(** [x / y] on integers: the exact quotient, rounded once to the nearest
    float; a [ZeroDivisionError] on a zero divisor and an [OverflowError]
    when the quotient is beyond the range. *)
Definition int_truediv (x y : Z) : outcome spec_float :=
  if y =? 0 then Raise
  else match SFdiv prec emax (raw_of_Z x) (raw_of_Z y) with
       | S754_infinity _ => Raise
       | q => Ok q
       end.

(** [a / b], true division: on two integers as above; otherwise integer
    operands are converted and the floats divided, a zero divisor being a
    [ZeroDivisionError]. *)
Definition py_truediv (a b : value) : outcome spec_float :=
  x <~ as_num a ;; y <~ as_num b ;;
  match x, y with
  | NInt p, NInt q => int_truediv p q
  | _, _ =>
      fx <~ float_of_num x ;; fy <~ float_of_num y ;;
      if is_fzero fy then Raise else Ok (fdiv fx fy)
  end.

(** [a != k] for an integer constant [k]; comparing never raises. *)
Definition py_ne_int (a : value) (k : Z) : bool :=
  match as_num a with
  | Ok n => negb (num_eqb n (NInt k))
  | Raise => true
  end.

(** Truth value of an object, as [if x] and [not x] take it. *)
Definition truthy (v : value) : bool :=
  match v with
  | VNone => false
  | VBool b => b
  | VInt z => negb (z =? 0)
  | VFloat f => negb (is_fzero f)
  | VStr s => negb (String.eqb s "")
  | VList l => negb (Nat.eqb (length l) 0)
  | VDict d => negb (Nat.eqb (size d) 0)
  end.

Definition is_substring (k s : string) : bool :=
  match index 0 k s with
  | Some _ => true
  | None => false
  end.

Definition is_str (k : string) (v : value) : bool :=
  match v with
  | VStr s => String.eqb s k
  | _ => false
  end.

(** [k in c] for a string [k]. *)
Definition py_in (k : string) (c : value) : outcome bool :=
  match c with
  | VDict d => Ok (bool_decide (is_Some (d !! k)))
  | VList l => Ok (existsb (is_str k) l)
  | VStr s => Ok (is_substring k s)
  | _ => Raise
  end.

(** [c[k]] for a string [k]: only a dictionary can be indexed by a string,
    and a missing key is a [KeyError]. *)
Definition py_getitem (c : value) (k : string) : outcome value :=
  match c with
  | VDict d =>
      match d !! k with
      | Some v => Ok v
      | None => Raise
      end
  | _ => Raise
  end.

(** [c[k] = v] for a string [k]. *)
Definition py_setitem (c : value) (k : string) (v : value) : outcome value :=
  match c with
  | VDict d => Ok (VDict (<[k := v]> d))
  | _ => Raise
  end.

(** [c.get(k, dflt)]: a method of dictionaries only. *)
Definition py_get (c : value) (k : string) (dflt : value) : outcome value :=
  match c with
  | VDict d => Ok (default dflt (d !! k))
  | _ => Raise
  end.

(** ** Configuration *)

Definition ASSETS : list string :=
  [ "BTC-USD"; "ETH-USD"; "SOL-USD"; "AVAX-USD";
    "TUPRS.IS"; "DOAS.IS"; "THYAO.IS"; "MAVI.IS"; "ASELS.IS"; "KONTR.IS";
    "ARDYZ.IS"; "MIATK.IS"; "MPARK.IS"; "EKGYO.IS"; "LOGO.IS"; "SMRTG.IS";
    "GWIND.IS"; "YEOTK.IS"; "OYAKC.IS"; "EREGL.IS"; "DESA.IS"; "BIMAS.IS";
    "TUKAS.IS";
    "GOOGL"; "NVDA"; "META"; "INTC"; "AAPL"; "MSFT" ].

Definition EMA_SHORT : Z := 100.
Definition EMA_LONG : Z := 200.
Definition STOP_LOSS : Z := 10.
Definition TAKE_PROFIT : Z := 40.
Definition UPGRADED_TP : Z := 100.
Definition STATE_FILE : string := "state.json".
Definition MIN_TELEGRAM_INTERVAL : Z := 60.

(** ** State store: the default schema *)

(** The record every instrument starts with, in the order the dictionary
    literal of [load_state] lists its fields. *)
Definition default_fields : list (string * value) :=
  [ ("in_position", VBool false);
    ("entry_price", VNone);
    ("take_profit", VInt TAKE_PROFIT);
    ("last_msg", VNone) ].

Definition default_record : gmap string value := list_to_map default_fields.

(** [default] of [load_state]: one record per configured instrument, and
    nothing else. *)
Definition default_state : gmap string value :=
  list_to_map ((λ symbol, (symbol, VDict default_record)) <$> ASSETS).

(** ** Files

    A file is modelled by the JSON document it holds.  [json.dump] of a
    document followed by [json.load] gives the document back; a file that
    holds only the first chunks of a serialisation (the closing brace comes
    last), an empty file and foreign text do not parse. *)

Inductive file : Type :=
| Empty
| Torn (doc : value) (written : nat)
| Whole (doc : value)
| Junk (raw : string).

(** [json.load]: the parsed document, or a [JSONDecodeError]. *)
Definition json_load (f : file) : outcome value :=
  match f with
  | Whole doc => Ok doc
  | _ => Raise
  end.

(** What the program does to the file system, one system call at a time. *)
Inductive fs_op : Type :=
| Create (path : string)
| Append (path : string) (doc : value)
| Replace (src dst : string).

(** What an observer of the bot sees it do. *)
Inductive event : Type :=
| Saved (snapshot : gmap string value)
| Posted (text : string).

Record world : Type := {
  state : gmap string value;
  disk : gmap string file;
  ticks : nat;
  trace : list event
}.

Definition with_state (s : gmap string value) (w : world) : world :=
  {| state := s; disk := disk w; ticks := ticks w; trace := trace w |}.

Definition with_disk (d : gmap string file) (w : world) : world :=
  {| state := state w; disk := d; ticks := ticks w; trace := trace w |}.

Definition emit (e : event) (w : world) : world :=
  {| state := state w; disk := disk w; ticks := ticks w; trace := trace w ++ [e] |}.

Definition tick (w : world) : world :=
  {| state := state w; disk := disk w; ticks := S (ticks w); trace := trace w |}.

(** Effectful code: a state transformer that may end in an exception. *)
Definition M (A : Type) : Type := world → outcome A * world.

Definition ret {A} (a : A) : M A := λ w, (Ok a, w).

Definition bind {A B} (c : M A) (k : A → M B) : M B :=
  λ w, match c w with
       | (Ok a, w') => k a w'
       | (Raise, w') => (Raise, w')
       end.

Definition lift {A} (o : outcome A) : M A := λ w, (o, w).

Definition modify (f : world → world) : M unit := λ w, (Ok tt, f w).

(** [try: c except Exception: write_log(...)]. *)
Definition try_except (c : M unit) : M unit :=
  λ w, (Ok tt, snd (c w)).

Notation "x <- c ;; k" := (bind c (fun x => k))
  (at level 100, c at next level, right associativity).
Notation "c ;;; k" := (bind c (fun _ => k))
  (at level 100, right associativity).

Fixpoint for_each {A} (body : A → M unit) (l : list A) : M unit :=
  match l with
  | [] => ret tt
  | a :: l' => body a ;;; for_each body l'
  end.

(** The messages the bot composes.  Their text comes out of f-strings that
    format floats; the model keeps what goes into each and leaves the
    formatting to [render]. *)
Inductive notice : Type :=
| SignalTable (symbol : string) (price ema100 ema200 : spec_float)
| TakeProfitLine (symbol : string) (tp : value) (price : spec_float) (entry : num)
| StopLossTable (symbol : string) (price : spec_float) (entry : num) (ema100 ema200 : spec_float)
| UpgradeLine (symbol : string).

(** One bar of an annotated frame, as the evaluation of an instrument reads
    it: the close of the last 4h bar, the 4h averages on the last two
    bars, and the daily averages on the last two bars. *)
Record bars : Type := {
  price : spec_float;
  prev_short : spec_float;
  prev_long : spec_float;
  last_short : spec_float;
  last_long : spec_float;
  prev_ema100 : spec_float;
  prev_ema200 : spec_float;
  daily_ema100 : spec_float;
  daily_ema200 : spec_float
}.

(** The branch of the evaluation of an instrument that ran to its end. *)
Inductive transition : Type :=
| Stay
| Entered
| TookProfit
| StoppedOut
| Upgraded.

Section Bot.

(** The environment of one run. *)

(** [int(time.time())] at the n-th reading of the clock. *)
Variable clock : nat → Z.
(** Whether [TELEGRAM_TOKEN] and [TELEGRAM_CHAT_ID] are both set. *)
Variable credentials : bool.
(** The close column of the frame [safe_download(symbol, interval, ...)]
    ends up with; the empty list is the empty frame. *)
Variable download : string → string → list spec_float.
(** [series.ewm(span=period, adjust=False).mean()] of pandas. *)
Variable ewm_mean : Z → list spec_float → list spec_float.
(** The text of a message. *)
Variable render : notice → string.
(** How many further writes [json.dump] issues after the first one. *)
Variable chunks : value → nat.

(** ** State store: [save_state] *)

Definition tmp_file : string := STATE_FILE +:+ ".tmp".

Definition grow (doc : value) (written : nat) : file :=
  if Nat.eqb written (chunks doc) then Whole doc else Torn doc (S written).

Definition apply_op (d : gmap string file) (o : fs_op) : gmap string file :=
  match o with
  | Create path => <[path := Empty]> d
  | Append path doc =>
      match d !! path with
      | Some Empty => <[path := grow doc 0]> d
      | Some (Torn _ n) => <[path := grow doc n]> d
      | _ => d
      end
  | Replace src dst =>
      match d !! src with
      | Some f => <[dst := f]> (delete src d)
      | None => d
      end
  end.

Definition run_ops (ops : list fs_op) (d : gmap string file) : gmap string file :=
  foldl apply_op d ops.

(** The system calls of [save_state], in order: open the temporary file
    for writing, write the serialisation chunk by chunk, move the file
    over the canonical one. *)
Definition save_ops (s : gmap string value) : list fs_op :=
  Create tmp_file
    :: replicate (S (chunks (VDict s))) (Append tmp_file (VDict s))
    ++ [Replace tmp_file STATE_FILE].

Definition save_state (s : gmap string value) : M unit :=
  modify (λ w, emit (Saved s) (with_disk (run_ops (save_ops s) (disk w)) w)).

(** [save_state] cut short after its first [k] system calls. *)
Definition save_interrupted (k : nat) (s : gmap string value)
    (d : gmap string file) : gmap string file :=
  run_ops (take k (save_ops s)) d.

(** ** State store: [load_state] *)

(** The inner loop body: [if field not in s[k]: s[k][field] = v[field]]. *)
Definition fill_field (k : string) (s : value) (fv : string * value) : outcome value :=
  r <~ py_getitem s k ;;
  has <~ py_in (fst fv) r ;;
  if has then Ok s
  else r' <~ py_setitem r (fst fv) (snd fv) ;; py_setitem s k r'.

(** The outer loop body, for the instrument [k]. *)
Definition fill_symbol (s : value) (k : string) : outcome value :=
  has <~ py_in k s ;;
  if negb has then py_setitem s k (VDict default_record)
  else ofold (fill_field k) s default_fields.

Definition fill_defaults (s : value) : outcome value :=
  ofold fill_symbol s ASSETS.

Definition fill_global (s : value) : outcome value :=
  has <~ py_in "global_last_msg" s ;;
  if negb has then py_setitem s "global_last_msg" VNone else Ok s.

Definition load_state (d : gmap string file) : gmap string value :=
  match d !! STATE_FILE with
  | Some f =>
      match (s <~ json_load f ;; s <~ fill_defaults s ;; fill_global s) with
      | Ok (VDict s) => s
      | Ok _ => default_state
      | Raise => default_state
      end
  | None => default_state
  end.

(** ** Notification dedup gate *)

(** One guarded test of [should_send]: [last] is a non-empty dictionary
    whose text is [text] and whose timestamp is less than [window] seconds
    before [now_ts].  The subtraction is only reached when the texts agree
    ([and] short-circuits); it raises on a timestamp that is no number. *)
Definition suppresses (now_ts : Z) (last : value) (text : string) (window : Z) : outcome bool :=
  match last with
  | VDict d =>
      if truthy last && is_str text (default VNone (d !! "text")) then
        age <~ py_sub (VInt now_ts) (default (VInt 0) (d !! "ts")) ;;
        Ok (num_ltb age (NInt window))
      else Ok false
  | _ => Ok false
  end.

(** [should_send], given the reading [now_ts] of the clock. *)
Definition should_send_at (now_ts : Z) (s : gmap string value)
    (symbol text : string) : outcome bool :=
  symbol_last <~ py_get (default (VDict ∅) (s !! symbol)) "last_msg" VNone ;;
  let global_last := default VNone (s !! "global_last_msg") in
  hit <~ suppresses now_ts symbol_last text MIN_TELEGRAM_INTERVAL ;;
  if hit then Ok false
  else
    hit <~ suppresses now_ts global_last text 10 ;;
    if hit then Ok false else Ok true.

Definition sent_record (text : string) (now_ts : Z) : value :=
  VDict (<["ts" := VInt now_ts]> {["text" := VStr text]}).

(** The mutations of [mark_sent], given the reading [now_ts] of the clock. *)
Definition mark_sent_at (now_ts : Z) (s : gmap string value)
    (symbol text : string) : outcome (gmap string value) :=
  let s1 := match s !! symbol with
            | Some _ => s
            | None => <[symbol := VDict ∅]> s
            end in
  r <~ py_getitem (VDict s1) symbol ;;
  r' <~ py_setitem r "last_msg" (sent_record text now_ts) ;;
  Ok (<["global_last_msg" := sent_record text now_ts]> (<[symbol := r']> s1)).

Definition time_time : M Z := λ w, (Ok (clock (ticks w)), tick w).

Definition get_state : M (gmap string value) := λ w, (Ok (state w), w).

Definition should_send (symbol text : string) : M bool :=
  now_ts <- time_time ;;
  s <- get_state ;;
  lift (should_send_at now_ts s symbol text).

Definition mark_sent (symbol text : string) : M unit :=
  now_ts <- time_time ;;
  s <- get_state ;;
  s' <- lift (mark_sent_at now_ts s symbol text) ;;
  modify (with_state s') ;;;
  save_state s'.

(** [requests.post]: a failed delivery is logged, never raised. *)
Definition post (msg : string) : M unit := modify (emit (Posted msg)).

(** [send_telegram(msg, state=state, symbol=symbol)]; [symbol] is [None]
    for the call that passes neither. *)
Definition send_telegram (msg : string) (symbol : option string) : M unit :=
  if negb credentials then ret tt
  else
    match symbol with
    | Some sym =>
        ok <- should_send sym msg ;;
        if negb ok then ret tt
        else mark_sent sym msg ;;; post msg
    | None => post msg
    end.

(** ** Position state machine *)

(** [prev.short < prev.long and curr.short > curr.long]. *)
Definition crossed_up (prev_s prev_l curr_s curr_l : spec_float) : bool :=
  fltb prev_s prev_l && fltb curr_l curr_s.

(** [entry * (1 + tp / 100)]. *)
Definition take_profit_level (entry tp : value) : outcome spec_float :=
  q <~ py_truediv tp (VInt 100) ;;
  e <~ as_num entry ;;
  x <~ float_of_num e ;;
  Ok (fmul x (fadd (float_of_Z 1) q)).

(** [entry * (1 - STOP_LOSS / 100)]. *)
Definition stop_loss_level (entry : value) : outcome spec_float :=
  q <~ py_truediv (VInt STOP_LOSS) (VInt 100) ;;
  e <~ as_num entry ;;
  x <~ float_of_num e ;;
  Ok (fmul x (fsub (float_of_Z 1) q)).

(** [format_stoploss_log]: computing the realised loss divides by the
    entry price. *)
Definition format_stoploss_log (symbol : string) (price : spec_float)
    (entry : value) (ema100 ema200 : spec_float) : outcome string :=
  e <~ as_num entry ;;
  if num_is_zero e then Raise
  else Ok (render (StopLossTable symbol price e ema100 ema200)).

(** [state[symbol][field] = v]. *)
Definition set_field (symbol field : string) (v : value) : M unit :=
  s <- get_state ;;
  r <- lift (py_getitem (VDict s) symbol) ;;
  r' <- lift (py_setitem r field v) ;;
  modify (with_state (<[symbol := r']> s)).

(** The three assignments that close a position. *)
Definition close_position (symbol : string) : M unit :=
  set_field symbol "in_position" (VBool false) ;;;
  set_field symbol "entry_price" VNone ;;;
  set_field symbol "take_profit" (VInt TAKE_PROFIT).

(** The evaluation of one instrument once its bars are there: the [if] /
    [else] of [check_signals] under "Alım Sinyali" and "Pozisyon Açıkken".
    The result names the branch that ran to its end. *)
Definition evaluate (symbol : string) (b : bars) : M transition :=
  s <- get_state ;;
  r <- lift (py_getitem (VDict s) symbol) ;;
  in_position <- lift (py_getitem r "in_position") ;;
  if negb (truthy in_position) then
    if crossed_up (prev_short b) (prev_long b) (last_short b) (last_long b) then
      set_field symbol "in_position" (VBool true) ;;;
      set_field symbol "entry_price" (VFloat (price b)) ;;;
      set_field symbol "take_profit" (VInt TAKE_PROFIT) ;;;
      send_telegram
        (render (SignalTable symbol (price b) (daily_ema100 b) (daily_ema200 b)))
        (Some symbol) ;;;
      ret Entered
    else ret Stay
  else
    entry <- lift (py_getitem r "entry_price") ;;
    tp <- lift (py_get r "take_profit" (VInt TAKE_PROFIT)) ;;
    level <- lift (take_profit_level entry tp) ;;
    if fleb level (price b) then
      e <- lift (as_num entry) ;;
      send_telegram (render (TakeProfitLine symbol tp (price b) e)) (Some symbol) ;;;
      close_position symbol ;;;
      ret TookProfit
    else
      stop <- lift (stop_loss_level entry) ;;
      if fleb (price b) stop then
        msg <- lift (format_stoploss_log symbol (price b) entry
                       (daily_ema100 b) (daily_ema200 b)) ;;
        send_telegram msg (Some symbol) ;;;
        close_position symbol ;;;
        ret StoppedOut
      else if crossed_up (prev_ema100 b) (prev_ema200 b) (daily_ema100 b) (daily_ema200 b) then
        tp_now <- lift (py_get r "take_profit" VNone) ;;
        if py_ne_int tp_now UPGRADED_TP then
          set_field symbol "take_profit" (VInt UPGRADED_TP) ;;;
          send_telegram (render (UpgradeLine symbol)) (Some symbol) ;;;
          ret Upgraded
        else ret Stay
      else ret Stay.

(** ** Cycle orchestrator *)

(** [series.iloc[-k]], counting from 1. *)
Definition iloc_back (l : list spec_float) (k : nat) : outcome spec_float :=
  match rev l !! pred k with
  | Some x => Ok x
  | None => Raise
  end.

(** The part of the loop body before the state machine: both downloads,
    the length checks (whose failure is the [continue], here [None]) and
    the averages.  The averages are read here rather than at their first
    use; in pandas a column has the length of its frame, so reading them
    cannot fail where the length checks passed. *)
Definition fetch (symbol : string) : outcome (option bars) :=
  let df_4h := download symbol "4h" in
  if Nat.eqb (length df_4h) 0
     || (Z.of_nat (length df_4h) <? Z.max EMA_LONG EMA_SHORT + 2) then Ok None
  else
    let ema_short := ewm_mean EMA_SHORT df_4h in
    let ema_long := ewm_mean EMA_LONG df_4h in
    close <~ iloc_back df_4h 1 ;;
    let df_1d := download symbol "1d" in
    if Nat.eqb (length df_1d) 0 || (Z.of_nat (length df_1d) <? 201) then Ok None
    else
      let ema100 := ewm_mean 100 df_1d in
      let ema200 := ewm_mean 200 df_1d in
      ps <~ iloc_back ema_short 2 ;;
      pl <~ iloc_back ema_long 2 ;;
      ls <~ iloc_back ema_short 1 ;;
      ll <~ iloc_back ema_long 1 ;;
      p100 <~ iloc_back ema100 2 ;;
      p200 <~ iloc_back ema200 2 ;;
      d100 <~ iloc_back ema100 1 ;;
      d200 <~ iloc_back ema200 1 ;;
      Ok (Some {| price := close;
                  prev_short := ps; prev_long := pl;
                  last_short := ls; last_long := ll;
                  prev_ema100 := p100; prev_ema200 := p200;
                  daily_ema100 := d100; daily_ema200 := d200 |}).

(** The body of the [for] loop, with its [try] / [except]. *)
Definition process (symbol : string) : M unit :=
  try_except
    (ob <- lift (fetch symbol) ;;
     match ob with
     | None => ret tt
     | Some b => evaluate symbol b ;;; ret tt
     end).

Definition check_signals : M unit :=
  modify (λ w, with_state (load_state (disk w)) w) ;;;
  for_each process ASSETS ;;;
  s <- get_state ;;
  save_state s.

End Bot.


(** ** Downloads with retries: [safe_download] *)

(** What one call of [yf.download] comes to: an exception, or a frame,
    given by its close column (the empty list is the empty frame). *)
Inductive reply : Type :=
| Failed
| Frame (closes : list spec_float).

(** The network side of a run: how many calls of [yf.download] were made
    and how many seconds were slept. *)
Record net : Type := {
  calls : nat;
  slept : Z
}.

(** The [for] loop of [safe_download] with [left] attempts to go; [yf]
    gives the reply to each call by its number.  [time.sleep] raises on a
    negative pause, outside the [try]. *)
Fixpoint safe_download_loop (yf : nat → reply) (pause : Z) (left : nat) (n : net)
    : outcome (list spec_float) * net :=
  match left with
  | O => (Ok [], n)
  | S left' =>
      let called := {| calls := S (calls n); slept := slept n |} in
      match yf (calls n) with
      | Frame (x :: xs) => (Ok (x :: xs), called)
      | _ =>
          if pause <? 0 then (Raise, called)
          else safe_download_loop yf pause left'
                 {| calls := S (calls n); slept := slept n + pause |}
      end
  end.

Definition safe_download (yf : nat → reply) (retries pause : Z) (n : net)
    : outcome (list spec_float) * net :=
  safe_download_loop yf pause (Z.to_nat retries) n.

(** ** Log rotation: [rotate_logs] *)

Definition LOG_FILE : string := "log.txt".
Definition MAX_LOG_SIZE : Z := 100 * 1024 * 1024.
Definition BACKUP_COUNT : nat := 50.

(** [f"{LOG_FILE}.{i}"]. *)
Definition backup_name (i : nat) : string := LOG_FILE +:+ "." +:+ pretty i.

Section Logs.

(** The content of a log file, and [os.path.getsize]. *)
Variable blob : Type.
Variable getsize : blob → Z.

(** [if os.path.exists(src): os.replace(src, dst)]. *)
Definition replace_if_exists (src dst : string) (d : gmap string blob) : gmap string blob :=
  match d !! src with
  | Some f => <[dst := f]> (delete src d)
  | None => d
  end.

(** The loop body for backup number [i]. *)
Definition shift_backup (d : gmap string blob) (i : nat) : gmap string blob :=
  replace_if_exists (backup_name i) (backup_name (S i)) d.

(** The directory after [rotate_logs].  The last [os.replace] has no
    [exists] test of its own; its source is the file whose size was just
    read, and were it missing the exception would be swallowed by the
    [except] with nothing moved. *)
Definition rotate_logs (d : gmap string blob) : gmap string blob :=
  match d !! LOG_FILE with
  | None => d
  | Some f =>
      if MAX_LOG_SIZE <=? getsize f then
        replace_if_exists LOG_FILE (backup_name 1)
          (foldl shift_backup d (rev (seq 1 (BACKUP_COUNT - 1))))
      else d
  end.

End Logs.

(** ** Start-up: the [__main__] block before the loop *)

Section Startup.

Variable clock : nat → Z.
Variable credentials : bool.
Variable chunks : value → nat.

(** [send_telegram(greeting)], then [s = load_state(); save_state(s)]. *)
Definition startup (greeting : string) : M unit :=
  send_telegram clock credentials chunks greeting None ;;;
  modify (λ w, with_state (load_state (disk w)) w) ;;;
  s <- get_state ;;
  save_state chunks s.

End Startup.

(** ** The loop of [__main__] *)

Section Main.

Variable clock : nat → Z.
Variable credentials : bool.
Variable ewm_mean : Z → list spec_float → list spec_float.
Variable render : notice → string.
Variable chunks : value → nat.

(** What the provider delivers changes from one round to the next:
    [feed i] is what the downloads of round [i] return. *)
Variable feed : nat → string → string → list spec_float.

(** [n] rounds of [while True: check_signals(); time.sleep(60)], from
    round number [i] on; an exception that leaves [check_signals] ends the
    loop.  The pause is no event of the world: the clock is any function
    of the number of its readings. *)
Fixpoint rounds (n i : nat) : M unit :=
  match n with
  | O => ret tt
  | S n' =>
      check_signals clock credentials (feed i) ewm_mean render chunks ;;;
      rounds n' (S i)
  end.

(** The program up to the end of round [n]. *)
Definition main (greeting : string) (n : nat) : M unit :=
  startup clock credentials chunks greeting ;;;
  rounds n 0.

End Main.

(** ** Vocabulary of the properties *)

(** The temporary file after [j] of the writes of a serialisation of [doc]
    that takes [S (chunks doc)] writes. *)
Definition stage (chunks : value → nat) (doc : value) (j : nat) : file :=
  if Nat.eqb j (S (chunks doc)) then Whole doc
  else match j with
       | O => Empty
       | S _ => Torn doc j
       end.

(** A snapshot that has every configured instrument with every field, and
    the global dedup record. *)
Definition well_formed (s : gmap string value) : Prop :=
  (∀ k, k ∈ ASSETS →
     ∃ r, s !! k = Some (VDict r) ∧ ∀ fv, fv ∈ default_fields → is_Some (r !! fv.1))
  ∧ is_Some (s !! "global_last_msg").

(** A dedup record as [mark_sent] writes it: a dictionary with the text
    and the integer timestamp of the message. *)
Definition recorded (v : value) (text : string) (ts : Z) : Prop :=
  ∃ d, v = VDict d ∧ d !! "text" = Some (VStr text) ∧ d !! "ts" = Some (VInt ts).

(** A dedup slot holds [None] or such a record. *)
Definition slot_ok (v : value) : Prop :=
  v = VNone ∨ ∃ text ts, recorded v text ts.

(** The instrument has no record yet, or its record is a dictionary. *)
Definition record_ok (s : gmap string value) (symbol : string) : Prop :=
  s !! symbol = None ∨ ∃ r, s !! symbol = Some (VDict r).

(** The record of an instrument, empty when it has none. *)
Definition record_of (s : gmap string value) (symbol : string) : gmap string value :=
  match s !! symbol with
  | Some (VDict r) => r
  | _ => ∅
  end.

(** The last message recorded for an instrument, and globally. *)
Definition symbol_last (s : gmap string value) (symbol : string) : value :=
  default VNone (record_of s symbol !! "last_msg").

Definition global_last (s : gmap string value) : value :=
  default VNone (s !! "global_last_msg").

(** A field of the record of an instrument, if it is there. *)
Definition field_of (s : gmap string value) (symbol field : string) : option value :=
  record_of s symbol !! field.

(** The record of a position that was just closed. *)
Definition closed (r : gmap string value) : gmap string value :=
  <["take_profit" := VInt TAKE_PROFIT]>
    (<["entry_price" := VNone]> (<["in_position" := VBool false]> r)).

(** The record of a position that was just opened at [p]. *)
Definition opened (p : spec_float) (r : gmap string value) : gmap string value :=
  <["take_profit" := VInt TAKE_PROFIT]>
    (<["entry_price" := VFloat p]> (<["in_position" := VBool true]> r)).

(** Two snapshots that differ at most in dedup records: every record that
    is a dictionary is still one, with the same fields but [last_msg]. *)
Definition same_positions (s s' : gmap string value) : Prop :=
  ∀ k r, k ≠ "global_last_msg" → s !! k = Some (VDict r) →
    ∃ r', s' !! k = Some (VDict r') ∧ ∀ f, f ≠ "last_msg" → r' !! f = r !! f.

(** Both dedup slots an instrument's notification is checked against hold
    [None] or a record. *)
Definition slots_ok (s : gmap string value) (symbol : string) : Prop :=
  slot_ok (symbol_last s symbol) ∧ slot_ok (global_last s).

(** The float nearest to a number, infinite beyond the range: the result
    of the interpreter's conversion [float_of_num] wherever that does not
    raise. *)
Definition to_float (n : num) : spec_float :=
  match n with
  | NInt z => float_of_Z z
  | NFloat f => f
  end.

(** [1 - STOP_LOSS / 100]. *)
Definition stop_factor : spec_float :=
  fsub (float_of_Z 1) (fdiv (float_of_Z STOP_LOSS) (float_of_Z 100)).

(** The position of an instrument is open. *)
Definition is_open (s : gmap string value) (symbol : string) : Prop :=
  ∃ ip, field_of s symbol "in_position" = Some ip ∧ truthy ip = true.

(** A run of evaluations, each under the [try] / [except] of the loop
    body, of any instruments on any bars: what later cycles do to the
    state. *)
Definition evaluations (clock : nat → Z) (credentials : bool)
    (render : notice → string) (chunks : value → nat)
    (steps : list (string * bars)) : M unit :=
  for_each
    (λ kb, try_except (evaluate clock credentials render chunks kb.1 kb.2 ;;; ret tt))
    steps.

(** Counting the saves and the posts of a trace. *)
Definition is_save (e : event) : bool :=
  match e with
  | Saved _ => true
  | Posted _ => false
  end.

Definition saves (evs : list event) : nat := length (List.filter is_save evs).

Definition posts (evs : list event) : nat :=
  length (List.filter (λ e, negb (is_save e)) evs).

(** What the processing of one instrument adds to the trace: nothing, or
    the save of [mark_sent] followed by the post of the notification. *)
Inductive burst : list event → Prop :=
| burst_none : burst []
| burst_sent (s : gmap string value) (msg : string) : burst [Saved s; Posted msg].

(** Code that adds nothing to the trace, and code that adds one burst. *)
Definition quiet {A} (c : M A) : Prop :=
  ∀ w, trace (c w).2 = trace w.

Definition sends_once {A} (c : M A) : Prop :=
  ∀ w, ∃ evs, trace (c w).2 = (trace w ++ evs)%list ∧ burst evs.

(** A run in which every bar series is long enough and flat, so that every
    instrument is evaluated and none crosses. *)
Definition calm_download (symbol interval : string) : list spec_float :=
  replicate 202 (float_of_Z 100).

Definition fresh_world : world :=
  {| state := ∅; disk := ∅; ticks := 0; trace := [] |}.

(** [well_formed], computed. *)
Definition well_formed_b (s : gmap string value) : bool :=
  forallb
    (λ k, match s !! k with
          | Some (VDict r) =>
              forallb (λ fv : string * value, bool_decide (is_Some (r !! fv.1)))
                default_fields
          | _ => false
          end)
    ASSETS
  && bool_decide (is_Some (s !! "global_last_msg")).

(** ** Sample runs *)

Definition sample_clock (n : nat) : Z := 1700000000 + Z.of_nat n.

Definition sample_render (n : notice) : string :=
  match n with
  | SignalTable symbol _ _ _ => "ALIM " +:+ symbol
  | TakeProfitLine symbol _ _ _ => "TP " +:+ symbol
  | StopLossTable symbol _ _ _ _ => "SL " +:+ symbol
  | UpgradeLine symbol => "UP " +:+ symbol
  end.

Definition sample_chunks (doc : value) : nat := 2.

(** The snapshot a first [load_state] of a parsed empty file gives. *)
Definition flat_state : gmap string value :=
  <["global_last_msg" := VNone]> default_state.

Definition flat_world : world :=
  {| state := flat_state; disk := ∅; ticks := 0; trace := [] |}.

(** A position in BTC-USD entered at 100 with target [tp]. *)
Definition open_record (tp : Z) : gmap string value :=
  <["take_profit" := VInt tp]>
    (<["entry_price" := VFloat (float_of_Z 100)]>
       (<["in_position" := VBool true]> default_record)).

Definition open_world (tp : Z) : world :=
  {| state := <["BTC-USD" := VDict (open_record tp)]> flat_state;
     disk := ∅; ticks := 0; trace := [] |}.

(** Bars at price [p] on which the 4h averages cross upward and the daily
    trend is down. *)
Definition crossing_bars (p : Z) : bars :=
  {| price := float_of_Z p;
     prev_short := float_of_Z 99; prev_long := float_of_Z 100;
     last_short := float_of_Z 101; last_long := float_of_Z 100;
     prev_ema100 := float_of_Z 90; prev_ema200 := float_of_Z 95;
     daily_ema100 := float_of_Z 90; daily_ema200 := float_of_Z 95 |}.


(** * More vocabulary for the properties *)

(** The text of a dedup record, if the slot holds a dictionary. *)
Definition text_of (v : value) : option value :=
  match v with
  | VDict d => d !! "text"
  | _ => None
  end.

(** Code that takes every world to one related to it by [R]. *)
Definition preserves {A} (R : world → world → Prop) (c : M A) : Prop :=
  ∀ w, R w (c w).2.

(** Relations between the world before and the world after. *)

(** Nothing but the record of [symbol] and the global record changed. *)
Definition only_touches (symbol : string) (w w' : world) : Prop :=
  ∀ k, k ≠ symbol → k ≠ "global_last_msg" → state w' !! k = state w !! k.

(** Neither the trace, nor the clock, nor the files changed. *)
Definition untouched_outside (w w' : world) : Prop :=
  trace w' = trace w ∧ ticks w' = ticks w ∧ disk w' = disk w.

(** Records stayed dictionaries and lost no field, and the global entry,
    if there, is still there. *)
Definition grows (w w' : world) : Prop :=
  (∀ k r, k ≠ "global_last_msg" → state w !! k = Some (VDict r) →
     ∃ r', state w' !! k = Some (VDict r')
           ∧ ∀ f, is_Some (r !! f) → is_Some (r' !! f))
  ∧ (is_Some (state w !! "global_last_msg") → is_Some (state w' !! "global_last_msg")).

(** Every dedup slot holds [None] or a record as [mark_sent] writes it, a
    string [text] with an integer [ts]. *)
Definition all_slots_ok (s : gmap string value) : Prop :=
  (∀ k, k ≠ "global_last_msg" → slot_ok (symbol_last s k)) ∧ slot_ok (global_last s).

(** The slots stay so from the world before to the world after. *)
Definition keeps_slots (w w' : world) : Prop :=
  all_slots_ok (state w) → all_slots_ok (state w').

(** A record as the state machine itself leaves it: flat with no entry
    price and the base target, or open with a non-zero float entry price
    and the base or the upgraded target. *)
Definition healthy_record (r : gmap string value) : Prop :=
  (r !! "in_position" = Some (VBool false)
   ∧ r !! "entry_price" = Some VNone
   ∧ r !! "take_profit" = Some (VInt TAKE_PROFIT))
  ∨ (r !! "in_position" = Some (VBool true)
     ∧ (∃ p, r !! "entry_price" = Some (VFloat p) ∧ is_fzero p = false)
     ∧ (r !! "take_profit" = Some (VInt TAKE_PROFIT)
        ∨ r !! "take_profit" = Some (VInt UPGRADED_TP))).

(** A snapshot in which every configured instrument has such a record and
    every dedup slot holds [None] or a record as [mark_sent] writes it. *)
Definition healthy (s : gmap string value) : Prop :=
  (∀ k, k ∈ ASSETS → ∃ r, s !! k = Some (VDict r) ∧ healthy_record r)
  ∧ all_slots_ok s.

(** A healthy snapshot before gives a healthy one after. *)
Definition keeps_healthy (w w' : world) : Prop :=
  healthy (state w) → healthy (state w').

(** A reply that makes [safe_download] try again. *)
Definition unusable (r : reply) : Prop :=
  r = Failed ∨ r = Frame [].

(** [state.json] holds the snapshot in memory, and that snapshot is
    healthy. *)
Definition in_step (w : world) : Prop :=
  disk w !! STATE_FILE = Some (Whole (VDict (state w))) ∧ healthy (state w).

(** ** More sample data *)

(** A state file that knows one instrument only, and only part of it. *)
Definition partial_state : gmap string value :=
  {[ "BTC-USD" := VDict {[ "in_position" := VBool true ]} ]}.

Definition partial_disk : gmap string file :=
  {[ STATE_FILE := Whole (VDict partial_state) ]}.

(** A snapshot whose last message for BTC-USD is "X" with timestamp [ts],
    or with none. *)
Definition noted_state (ts : option value) : gmap string value :=
  {[ "BTC-USD" :=
       VDict {[ "last_msg" :=
                  VDict (match ts with
                         | Some v => <["ts" := v]> {[ "text" := VStr "X" ]}
                         | None => {[ "text" := VStr "X" ]}
                         end) ]} ]}.

(** A world whose BTC-USD position is open with the given entry price. *)
Definition odd_record (entry : value) : gmap string value :=
  <["entry_price" := entry]> (<["in_position" := VBool true]> default_record).

Definition odd_world (entry : value) : world :=
  {| state := <["BTC-USD" := VDict (odd_record entry)]> flat_state;
     disk := ∅; ticks := 0; trace := [] |}.

(** The take-profit level of a record, NaN where it cannot be computed. *)
Definition level_of (entry tp : value) : spec_float :=
  match take_profit_level entry tp with Ok L => L | Raise => S754_nan end.

Definition bars_at (p : spec_float) : bars :=
  {| price := p;
     prev_short := float_of_Z 99; prev_long := float_of_Z 100;
     last_short := float_of_Z 101; last_long := float_of_Z 100;
     prev_ema100 := float_of_Z 90; prev_ema200 := float_of_Z 95;
     daily_ema100 := float_of_Z 90; daily_ema200 := float_of_Z 95 |}.

(** A provider that fails twice and then delivers one bar. *)
Definition flaky (i : nat) : reply :=
  if (i <? 2)%nat then Failed else Frame [float_of_Z 100].

Definition dead (i : nat) : reply := Failed.

(** A log directory with a full log and one backup; a file is given by
    its size. *)
Definition full_logs : gmap string Z :=
  <[backup_name 1 := 5]> {[ LOG_FILE := MAX_LOG_SIZE ]}.

(** Averages for the sample runs: the short one follows the closes, the
    long one stays at 100. *)
Definition sample_ewm (span : Z) (l : list spec_float) : list spec_float :=
  if span =? 100 then l else map (λ _, float_of_Z 100) l.

(** Closes at 99 that end at [p]: up to the last bar the short average is
    under the long one, and above it on the last bar when [p] is over
    100. *)
Definition rising (p : Z) : list spec_float :=
  replicate 201 (float_of_Z 99) ++ [float_of_Z p].

(** Closes at 100 that end at 150. *)
Definition peak : list spec_float :=
  replicate 201 (float_of_Z 100) ++ [float_of_Z 150].

(** One round of downloads: BTC-USD crosses upward at 101, ETH-USD closes
    at 150, everything else is flat. *)
Definition busy_download (symbol interval : string) : list spec_float :=
  if String.eqb symbol "BTC-USD" then rising 101
  else if String.eqb symbol "ETH-USD" then peak
  else calm_download symbol interval.

(** Three rounds for BTC-USD: an upward cross at 101, the same bars again,
    then a close at 250; flat for every other instrument and afterwards. *)
Definition sample_feed (i : nat) (symbol interval : string) : list spec_float :=
  if String.eqb symbol "BTC-USD" then
    match i with
    | 0%nat => rising 101
    | 1%nat => rising 101
    | 2%nat => rising 250
    | _ => calm_download symbol interval
    end
  else calm_download symbol interval.

(** A snapshot with a position open in ETH-USD since a recorded entry
    message, and a global record. *)
Definition lively_state : gmap string value :=
  <["global_last_msg" := sent_record "ALIM ETH-USD" 1699990000]>
    (<["ETH-USD" :=
         VDict (<["last_msg" := sent_record "ALIM ETH-USD" 1699990000]> (open_record 40))]>
       flat_state).

Definition lively_world : world :=
  {| state := ∅; disk := {[ STATE_FILE := Whole (VDict lively_state) ]};
     ticks := 0; trace := [] |}.

(** * Properties *)

(** ** Floats *)

Lemma fltb_irrefl (x : spec_float) : fltb x x = false.
Proof.
  unfold fltb, SFltb.
  destruct x as [s|s| |s m e]; simpl; try done.
  - by destruct s.
  - rewrite Z.compare_refl.
    assert (Pos.compare_cont Eq m m = Eq) as -> by apply Pos.compare_cont_refl.
    by destruct s.
Qed.

Lemma feqb_not_fltb (x y : spec_float) : feqb x y = true → fltb x y = false.
Proof.
  unfold feqb, fltb, SFeqb, SFltb.
  by destruct (SFcompare x y) as [[]|].
Qed.

(** ** State store *)

Section Store.

Variable chunks : value → nat.

Lemma tmp_file_ne : tmp_file ≠ STATE_FILE.
Proof. done. Qed.

Lemma append_stage (doc : value) (j : nat) (d : gmap string file) :
  (j ≤ chunks doc)%nat →
  d !! tmp_file = Some (stage chunks doc j) →
  apply_op chunks d (Append tmp_file doc) = <[tmp_file := stage chunks doc (S j)]> d.
Proof.
  intros Hj Hd. unfold apply_op. rewrite Hd. unfold stage, grow.
  destruct (Nat.eqb_spec j (S (chunks doc))) as [|_]; [lia|].
  simpl (Nat.eqb (S j) (S _)).
  by destruct j.
Qed.

Lemma run_appends (doc : value) (n j : nat) (d : gmap string file) :
  (j + n ≤ S (chunks doc))%nat →
  d !! tmp_file = Some (stage chunks doc j) →
  run_ops chunks (replicate n (Append tmp_file doc)) d
  = <[tmp_file := stage chunks doc (j + n)]> d.
Proof.
  revert j d. induction n as [|n IH]; intros j d Hle Hd.
  - simpl. rewrite Nat.add_0_r. by rewrite insert_id.
  - unfold run_ops in *. cbn [replicate foldl].
    rewrite (append_stage doc j) by (done || lia).
    rewrite (IH (S j)); [|lia|by rewrite lookup_insert_eq].
    rewrite insert_insert_eq. f_equal. f_equal. lia.
Qed.

(** A complete [save_state] leaves the serialised snapshot, whole, under
    the canonical name. *)
Lemma save_ops_canonical (s : gmap string value) (d : gmap string file) :
  run_ops chunks (save_ops chunks s) d !! STATE_FILE = Some (Whole (VDict s)).
Proof.
  unfold save_ops, run_ops. cbn [foldl]. rewrite foldl_app.
  pose proof (run_appends (VDict s) (S (chunks (VDict s))) 0
                (<[tmp_file := Empty]> d)) as Hrun.
  unfold run_ops in Hrun. cbn [apply_op]. rewrite Hrun; [|lia|by rewrite lookup_insert_eq].
  cbn [foldl apply_op Nat.add]. rewrite lookup_insert_eq, lookup_insert_eq.
  unfold stage. by rewrite Nat.eqb_refl.
Qed.

(** Before the final rename the canonical file is never written. *)
Lemma save_prefix_canonical (s : gmap string value) (k : nat) (d : gmap string file) :
  (k ≤ S (S (chunks (VDict s))))%nat →
  run_ops chunks (take k (save_ops chunks s)) d !! STATE_FILE = d !! STATE_FILE.
Proof.
  intros Hk. unfold save_ops. rewrite app_comm_cons.
  rewrite take_app_le by (simpl; rewrite length_replicate; lia).
  set (ops := take k _).
  assert (Forall (λ o, o = Create tmp_file ∨ ∃ doc, o = Append tmp_file doc) ops) as Hops.
  { apply Forall_take. constructor; [by left|].
    apply Forall_forall. intros o [-> _]%elem_of_replicate. right. eauto. }
  clearbody ops. revert d. induction Hops as [|o ops Ho _ IH]; intros d; [done|].
  unfold run_ops in *. cbn [foldl]. rewrite IH.
  destruct Ho as [->|[doc ->]]; cbn [apply_op].
  - rewrite lookup_insert_ne; [done|apply tmp_file_ne].
  - destruct (d !! tmp_file) as [[]|]; rewrite ?lookup_insert_ne; done || apply tmp_file_ne.
Qed.

(** C8. [save_state] is atomic with respect to interruption: cut short
    after any number of its system calls, it leaves under the canonical
    name either the file that was there before, untouched, or the whole
    new document; run to its end it leaves the whole new document. *)
Theorem save_state_atomic (s : gmap string value) (k : nat) (w : world) :
  (save_interrupted chunks k s (disk w) !! STATE_FILE = disk w !! STATE_FILE
   ∨ save_interrupted chunks k s (disk w) !! STATE_FILE = Some (Whole (VDict s)))
  ∧ disk (save_state chunks s w).2 !! STATE_FILE = Some (Whole (VDict s)).
Proof.
  split; [|apply save_ops_canonical].
  unfold save_interrupted.
  destruct (decide (k ≤ S (S (chunks (VDict s))))%nat) as [Hk|Hk].
  - left. by apply save_prefix_canonical.
  - right. rewrite take_ge; [apply save_ops_canonical|].
    unfold save_ops. simpl. rewrite length_app, length_replicate. simpl. lia.
Qed.

End Store.

(** The fill loop only ever hands back a dictionary: on any other document
    its first test or its first assignment raises. *)
Lemma fill_symbol_dict (s s' : value) (k : string) :
  fill_symbol s k = Ok s' → ∃ d, s = VDict d.
Proof.
  destruct s as [| | | |str|l|d]; try done; [| |by eauto].
  - unfold fill_symbol. simpl. destruct (is_substring k str); simpl; [|done].
    done.
  - unfold fill_symbol. simpl. destruct (existsb (is_str k) l); simpl; [|done].
    done.
Qed.

Lemma fill_symbol_keeps_dict (d : gmap string value) (s' : value) (k : string) :
  fill_symbol (VDict d) k = Ok s' → ∃ d', s' = VDict d'.
Proof.
  unfold fill_symbol. simpl. case_bool_decide as Hk; simpl; [|naive_solver].
  destruct Hk as [r Hr].
  assert (∀ l s0, (∃ d0, s0 = VDict d0) →
            ofold (fill_field k) s0 l = Ok s' → ∃ d', s' = VDict d') as Hfold.
  { induction l as [|fv l IH]; intros s0 [d0 ->]; simpl; [naive_solver|].
    destruct (fill_field k (VDict d0) fv) as [s1|] eqn:Hf; simpl; [|done].
    apply IH. unfold fill_field in Hf. simpl in Hf.
    destruct (d0 !! k) as [r0|]; simpl in Hf; [|done].
    destruct (py_in fv.1 r0) as [[]|]; simpl in Hf; [naive_solver| |done].
    destruct (py_setitem r0 fv.1 fv.2); simpl in Hf; naive_solver. }
  intros H. exact (Hfold default_fields (VDict d) (ex_intro _ d eq_refl) H).
Qed.

Lemma fill_symbols_keep_dict (l : list string) (d : gmap string value) (s' : value) :
  ofold fill_symbol (VDict d) l = Ok s' → ∃ d', s' = VDict d'.
Proof.
  revert d. induction l as [|k l IH]; intros d; cbn [ofold]; [naive_solver|].
  destruct (fill_symbol (VDict d) k) as [s2|] eqn:H2; cbn [obind]; [|done].
  apply fill_symbol_keeps_dict in H2 as [d2 ->]. apply IH.
Qed.

Lemma fill_defaults_dict (s s' : value) :
  fill_defaults s = Ok s' → ∃ d', s' = VDict d'.
Proof.
  unfold fill_defaults.
  change ASSETS with ("BTC-USD" :: tail ASSETS). cbn [ofold].
  destruct (fill_symbol s "BTC-USD") as [s1|] eqn:H1; cbn [obind]; [|done].
  destruct (fill_symbol_dict _ _ _ H1) as [d ->].
  apply fill_symbol_keeps_dict in H1 as [d1 ->].
  apply fill_symbols_keep_dict.
Qed.

(** On a well-formed snapshot the fill loop finds nothing to fill. *)
Lemma fill_defaults_well_formed (s : gmap string value) :
  well_formed s → fill_defaults (VDict s) = Ok (VDict s) ∧ fill_global (VDict s) = Ok (VDict s).
Proof.
  intros [Hrec Hglob]. split.
  - unfold fill_defaults.
    assert (∀ l, (∀ k, k ∈ l → k ∈ ASSETS) → ofold fill_symbol (VDict s) l = Ok (VDict s)) as Hl.
    { induction l as [|k l IH]; intros Hin; [done|].
      cbn [ofold].
      assert (fill_symbol (VDict s) k = Ok (VDict s)) as ->.
      { destruct (Hrec k) as (r & Hr & Hf); [apply Hin; left|].
        unfold fill_symbol. simpl. rewrite bool_decide_eq_true_2 by (rewrite Hr; eauto).
        simpl.
        assert (∀ fs, (∀ fv, fv ∈ fs → fv ∈ default_fields) →
                  ofold (fill_field k) (VDict s) fs = Ok (VDict s)) as Hfs.
        { induction fs as [|fv fs IHfs]; intros Hsub; [done|].
          cbn [ofold]. unfold fill_field at 1. simpl. rewrite Hr. simpl.
          rewrite bool_decide_eq_true_2 by (apply Hf, Hsub; left). simpl.
          apply IHfs. intros fv' ?. apply Hsub. by right. }
        exact (Hfs default_fields (λ _ H, H)). }
      cbn [obind]. apply IH. intros k' ?. apply Hin. by right. }
    by apply Hl.
  - unfold fill_global. simpl. by rewrite bool_decide_eq_true_2.
Qed.

(** C9. For every well-formed snapshot, [save_state] followed by
    [load_state] gives back the snapshot that was saved: every instrument's
    record and the global record come back unchanged. *)
Theorem save_load_roundtrip (chunks : value → nat) (s : gmap string value) (w : world) :
  well_formed s →
  load_state (disk (save_state chunks s w).2) = s.
Proof.
  intros Hwf. unfold load_state.
  assert (disk (save_state chunks s w).2 !! STATE_FILE = Some (Whole (VDict s))) as ->
    by apply save_ops_canonical.
  simpl.
  destruct (fill_defaults_well_formed s Hwf) as [-> Hg]. simpl.
  by rewrite Hg.
Qed.

(** C5. Where the state file is missing or does not parse, [load_state]
    hands back [default], which has no [global_last_msg] entry at all; the
    path that parses a file adds the entry with value [None]. *)
Theorem load_state_fallback_lacks_global :
  load_state ∅ = default_state
  ∧ load_state {[STATE_FILE := Junk "{"]} = default_state
  ∧ default_state !! "global_last_msg" = None
  ∧ load_state {[STATE_FILE := Whole (VDict ∅)]} !! "global_last_msg" = Some VNone.
Proof.
  split_and!; [done|done|by vm_compute|by vm_compute].
Qed.

(** ** Notification dedup gate *)

Lemma suppresses_spec (now_ts : Z) (v : value) (text : string) (window : Z) :
  slot_ok v →
  ∃ b, suppresses now_ts v text window = Ok b
       ∧ (b = true ↔ ∃ ts, recorded v text ts ∧ now_ts - ts < window).
Proof.
  unfold recorded. intros [->|(t' & ts' & d & -> & Ht & Hts)].
  - exists false. split; [done|]. split; [done|].
    by intros (ts & (d & ? & _) & _).
  - unfold suppresses.
    assert (truthy (VDict d) = true) as ->.
    { simpl. destruct (Nat.eqb_spec (size d) 0) as [Hz|]; [|done].
      apply map_size_empty_iff in Hz. by rewrite Hz in Ht. }
    rewrite Ht, Hts. simpl.
    destruct (String.eqb_spec t' text) as [->|Hne].
    + exists (now_ts - ts' <? window). split; [done|].
      rewrite Z.ltb_lt. split.
      * intros. exists ts'. split; [|done]. by exists d.
      * intros (ts & (d' & [= <-] & _ & Hts') & ?). rewrite Hts in Hts'. by injection Hts' as ->.
    + exists false. split; [done|]. split; [done|].
      intros (ts & (d' & [= <-] & Ht' & _) & _). rewrite Ht in Ht'. by injection Ht'.
Qed.

Lemma should_send_at_spec (now_ts : Z) (s : gmap string value) (symbol text : string) :
  record_ok s symbol →
  slot_ok (symbol_last s symbol) →
  slot_ok (global_last s) →
  ∃ b, should_send_at now_ts s symbol text = Ok b
       ∧ (b = false ↔
            (∃ ts, recorded (symbol_last s symbol) text ts
                   ∧ now_ts - ts < MIN_TELEGRAM_INTERVAL)
            ∨ (∃ ts, recorded (global_last s) text ts ∧ now_ts - ts < 10)).
Proof.
  intros Hrec Hsym Hglob. unfold should_send_at.
  assert (py_get (default (VDict ∅) (s !! symbol)) "last_msg" VNone
          = Ok (symbol_last s symbol)) as ->.
  { unfold symbol_last, record_of. by destruct Hrec as [->|[r ->]]. }
  cbn [obind]. fold (global_last s).
  destruct (suppresses_spec now_ts _ text MIN_TELEGRAM_INTERVAL Hsym) as (b1 & -> & H1).
  destruct (suppresses_spec now_ts _ text 10 Hglob) as (b2 & H2e & H2).
  cbn [obind]. destruct b1.
  - exists false. split; [done|]. split; [|done]. intros _. left. by apply H1.
  - rewrite H2e. cbn [obind]. destruct b2.
    + exists false. split; [done|]. split; [|done]. intros _. right. by apply H2.
    + exists true. split; [done|]. split; [done|].
      intros [H|H]; [apply H1 in H|apply H2 in H]; done.
Qed.

Section Gate.

Variable clock : nat → Z.
Variable chunks : value → nat.

Lemma mark_sent_at_ok (now_ts : Z) (s : gmap string value) (symbol text : string) :
  record_ok s symbol →
  mark_sent_at now_ts s symbol text
  = Ok (<["global_last_msg" := sent_record text now_ts]>
          (<[symbol := VDict (<["last_msg" := sent_record text now_ts]> (record_of s symbol))]> s)).
Proof.
  unfold mark_sent_at, record_of. intros [Hs|[r Hs]]; rewrite Hs; simpl.
  - rewrite lookup_insert_eq. simpl. by rewrite insert_insert_eq.
  - rewrite Hs. simpl. done.
Qed.

Lemma recorded_sent_record (text : string) (now_ts : Z) :
  recorded (sent_record text now_ts) text now_ts.
Proof. unfold recorded. eexists. split; [done|]. by split. Qed.

Lemma recorded_sent_record_inv (text text' : string) (now_ts ts : Z) :
  recorded (sent_record text now_ts) text' ts → text' = text ∧ ts = now_ts.
Proof.
  unfold recorded, sent_record. intros (d & [= <-] & Ht & Hts).
  rewrite lookup_insert_ne in Ht by done. rewrite lookup_singleton_eq in Ht.
  rewrite lookup_insert_eq in Hts. by simplify_eq.
Qed.

(** What [should_send] answers once [mark_sent] has recorded [text] for
    the instrument [A] at time [t]. *)
Lemma should_send_after_mark (t : Z) (s : gmap string value) (A text : string) :
  record_ok s A →
  A ≠ "global_last_msg" →
  ∃ s1, mark_sent_at t s A text = Ok s1
    ∧ (∀ now_ts, now_ts - t < 60 → should_send_at now_ts s1 A text = Ok false)
    ∧ (∀ now_ts, 60 ≤ now_ts - t → should_send_at now_ts s1 A text = Ok true)
    ∧ (∀ B now_ts, B ≠ A → B ≠ "global_last_msg" → record_ok s B →
         slot_ok (symbol_last s B) → now_ts - t < 10 →
         should_send_at now_ts s1 B text = Ok false)
    ∧ (∀ B now_ts, B ≠ A → B ≠ "global_last_msg" → record_ok s B →
         symbol_last s B = VNone → 10 ≤ now_ts - t →
         should_send_at now_ts s1 B text = Ok true).
Proof.
  intros HA HAg. eexists. split; [by apply mark_sent_at_ok|].
  set (m := sent_record text t).
  set (s1 := <["global_last_msg" := m]> _).
  assert (global_last s1 = m) as Hg.
  { unfold global_last, s1. by rewrite lookup_insert_eq. }
  assert (symbol_last s1 A = m) as HsA.
  { unfold symbol_last, record_of, s1.
    rewrite lookup_insert_ne, lookup_insert_eq by done. by rewrite lookup_insert_eq. }
  assert (record_ok s1 A) as HrA.
  { right. unfold s1. rewrite lookup_insert_ne, lookup_insert_eq by done. eauto. }
  assert (slot_ok m) as Hm.
  { right. eexists _, _. apply recorded_sent_record. }
  assert (∀ B, B ≠ A → B ≠ "global_last_msg" → s1 !! B = s !! B) as Hoth.
  { intros B ? ?. unfold s1. by rewrite !lookup_insert_ne. }
  split_and!.
  - intros now_ts Hlt.
    destruct (should_send_at_spec now_ts s1 A text) as (b & -> & Hb);
      rewrite ?HsA, ?Hg; try done.
    f_equal. apply Hb. left. exists t. rewrite HsA. split; [apply recorded_sent_record|done].
  - intros now_ts Hge.
    destruct (should_send_at_spec now_ts s1 A text) as (b & -> & Hb);
      rewrite ?HsA, ?Hg; try done.
    f_equal. destruct b; [done|]. rewrite HsA, Hg in Hb.
    destruct (proj1 Hb eq_refl) as [(ts & [_ ->]%recorded_sent_record_inv & Hlt)
                                   |(ts & [_ ->]%recorded_sent_record_inv & Hlt)];
      unfold MIN_TELEGRAM_INTERVAL in *; lia.
  - intros B now_ts HBA HBg HB HsB Hlt.
    assert (symbol_last s1 B = symbol_last s B) as HsB1.
    { unfold symbol_last, record_of. by rewrite Hoth. }
    destruct (should_send_at_spec now_ts s1 B text) as (b & -> & Hb);
      rewrite ?HsB1, ?Hg; try done.
    { unfold record_ok. by rewrite Hoth. }
    f_equal. apply Hb. right. exists t. rewrite Hg. split; [apply recorded_sent_record|done].
  - intros B now_ts HBA HBg HB HsB Hge.
    assert (symbol_last s1 B = VNone) as HsB1.
    { unfold symbol_last, record_of in *. by rewrite Hoth. }
    destruct (should_send_at_spec now_ts s1 B text) as (b & -> & Hb);
      rewrite ?HsB1, ?Hg; try done.
    { unfold record_ok. by rewrite Hoth. }
    { by left. }
    f_equal. destruct b; [done|]. rewrite HsB1, Hg in Hb.
    destruct (proj1 Hb eq_refl) as [(ts & (d & ? & _) & _)
                                   |(ts & [_ ->]%recorded_sent_record_inv & Hlt)];
      [done|lia].
Qed.

(** C4. [should_send] answers [False] exactly when the same text is the
    last message recorded for the instrument and is less than 60 seconds
    old, or is the last message recorded globally and is less than 10
    seconds old; otherwise it answers [True].  In particular, once [text]
    was recorded for [A] at time [t]: the same text for [A] is denied at
    [t+30] and allowed at [t+61], and for another instrument [B] it is
    denied at [t+5] and allowed at [t+11]. *)
Theorem should_send_gate (w : world) (symbol text : string) :
  record_ok (state w) symbol →
  slot_ok (symbol_last (state w) symbol) →
  slot_ok (global_last (state w)) →
  (∃ b, should_send clock symbol text w = (Ok b, tick w)
        ∧ (b = false ↔
             (∃ ts, recorded (symbol_last (state w) symbol) text ts
                    ∧ clock (ticks w) - ts < 60)
             ∨ (∃ ts, recorded (global_last (state w)) text ts
                      ∧ clock (ticks w) - ts < 10)))
  ∧ (∀ t A B, A ≠ "global_last_msg" → B ≠ "global_last_msg" → B ≠ A →
       record_ok (state w) A → record_ok (state w) B →
       symbol_last (state w) B = VNone →
       ∃ s1, mark_sent_at t (state w) A text = Ok s1
         ∧ should_send_at (t + 30) s1 A text = Ok false
         ∧ should_send_at (t + 61) s1 A text = Ok true
         ∧ should_send_at (t + 5) s1 B text = Ok false
         ∧ should_send_at (t + 11) s1 B text = Ok true).
Proof.
  intros Hrec Hsym Hglob. split.
  - destruct (should_send_at_spec (clock (ticks w)) (state w) symbol text)
      as (b & Hb & Hiff); try done.
    exists b. split; [|done].
    unfold should_send, bind, time_time, get_state, lift. simpl. by rewrite Hb.
  - intros t A B HA HB HBA HrA HrB HsB.
    destruct (should_send_after_mark t (state w) A text HrA HA)
      as (s1 & Hs1 & H30 & H61 & H5 & H11).
    exists s1. split_and!; [done|apply H30; lia|apply H61; lia| |].
    + apply H5; try done; [|lia]. rewrite HsB. by left.
    + apply H11; try done. lia.
Qed.

(** C10. [mark_sent] writes the same record, with one timestamp, to the
    instrument's [last_msg] field and to the [global_last_msg] entry, and
    changes nothing else in the snapshot: the instrument's other fields
    and every other instrument's record are as before. *)
Theorem mark_sent_frame (w : world) (symbol text : string) :
  symbol ≠ "global_last_msg" →
  record_ok (state w) symbol →
  ∃ w', mark_sent clock chunks symbol text w = (Ok tt, w')
    ∧ state w' !! "global_last_msg" = Some (sent_record text (clock (ticks w)))
    ∧ (∃ r', state w' !! symbol = Some (VDict r')
             ∧ r' !! "last_msg" = Some (sent_record text (clock (ticks w)))
             ∧ ∀ field, field ≠ "last_msg" →
                 r' !! field = record_of (state w) symbol !! field)
    ∧ (∀ k, k ≠ symbol → k ≠ "global_last_msg" → state w' !! k = state w !! k).
Proof.
  intros Hg Hrec.
  unfold mark_sent, bind, time_time, get_state, lift, modify, save_state. simpl.
  rewrite mark_sent_at_ok by done. simpl.
  eexists. split; [done|]. simpl. split_and!.
  - by rewrite lookup_insert_eq.
  - eexists. rewrite lookup_insert_ne, lookup_insert_eq by done.
    split_and!; [done|by rewrite lookup_insert_eq|].
    intros field Hf. by rewrite lookup_insert_ne.
  - intros k Hk Hkg. by rewrite !lookup_insert_ne.
Qed.

End Gate.

(** ** Position state machine *)

Lemma feqb_sym (x y : spec_float) : feqb x y = true → feqb y x = true.
Proof.
  unfold feqb, SFeqb.
  destruct x as [s1|s1| |s1 m1 e1], y as [s2|s2| |s2 m2 e2]; simpl; try done.
  all: try (by destruct s1, s2).
  all: try (by destruct s1).
  all: try (by destruct s2).
  destruct s1, s2; try done.
    all: destruct (Z.compare_spec e1 e2) as [->| |]; try done.
    all: rewrite Z.compare_refl.
    all: destruct (Pos.compare_cont Eq m1 m2) eqn:Hm; try done.
    all: apply Pos.compare_eq in Hm as ->.
    all: by rewrite (Pos.compare_cont_refl m2 Eq).
Qed.

(** The crossover test is strict: it fails as soon as the two averages
    are equal on one of the two bars. *)
Lemma crossed_up_strict (ps pl cs cl : spec_float) :
  feqb ps pl = true ∨ feqb cs cl = true ∨ ps = pl ∨ cs = cl →
  crossed_up ps pl cs cl = false.
Proof.
  unfold crossed_up. intros [H|[H|[->| ->]]].
  - by rewrite (feqb_not_fltb _ _ H).
  - apply feqb_sym in H. rewrite (feqb_not_fltb _ _ H). apply andb_false_r.
  - by rewrite fltb_irrefl.
  - rewrite fltb_irrefl. apply andb_false_r.
Qed.


Section Machine.

Variable clock : nat → Z.
Variable credentials : bool.
Variable render : notice → string.
Variable chunks : value → nat.

Local Abbreviation send_telegram := (send_telegram clock credentials chunks).
Local Abbreviation evaluate := (evaluate clock credentials render chunks).

Lemma set_field_ok (w : world) (symbol field : string) (v : value) (r : gmap string value) :
  state w !! symbol = Some (VDict r) →
  set_field symbol field v w
  = (Ok tt, with_state (<[symbol := VDict (<[field := v]> r)]> (state w)) w).
Proof.
  intros Hr. unfold set_field, bind, get_state, lift, modify. simpl. by rewrite Hr.
Qed.

Lemma set_field_raise (w : world) (symbol field : string) (v : value) :
  (∀ r, state w !! symbol ≠ Some (VDict r)) →
  set_field symbol field v w = (Raise, w).
Proof.
  intros Hr. unfold set_field, bind, get_state, lift, modify. simpl.
  destruct (state w !! symbol) as [[]|]; try done. by destruct (Hr d).
Qed.

Lemma close_position_ok (w : world) (symbol : string) (r : gmap string value) :
  state w !! symbol = Some (VDict r) →
  close_position symbol w
  = (Ok tt, with_state (<[symbol := VDict (closed r)]> (state w)) w).
Proof.
  intros Hr. unfold close_position, bind.
  rewrite (set_field_ok w _ _ _ r) by done.
  erewrite set_field_ok by (simpl; apply lookup_insert_eq).
  erewrite set_field_ok by (simpl; apply lookup_insert_eq).
  unfold with_state. simpl. by rewrite !insert_insert_eq.
Qed.

Lemma same_positions_refl (s : gmap string value) : same_positions s s.
Proof. intros k r _ Hr. eauto. Qed.

Lemma same_positions_mark (now_ts : Z) (s s' : gmap string value) (symbol text : string) :
  mark_sent_at now_ts s symbol text = Ok s' → same_positions s s'.
Proof.
  unfold mark_sent_at. intros Hm k r Hk Hr.
  destruct (s !! symbol) as [v|] eqn:Hs; simpl in Hm.
  - rewrite Hs in Hm. destruct v; simpl in Hm; try done. injection Hm as <-.
    rewrite lookup_insert_ne by done.
    destruct (decide (symbol = k)) as [->|Hne].
    + rewrite lookup_insert_eq. rewrite Hs in Hr. injection Hr as ->.
      eexists. split; [done|]. intros f Hf. by rewrite lookup_insert_ne.
    + rewrite lookup_insert_ne by done. eauto.
  - rewrite lookup_insert_eq in Hm. simpl in Hm. injection Hm as <-.
    assert (symbol ≠ k) by congruence.
    rewrite !lookup_insert_ne by done. eauto.
Qed.

(** What [send_telegram] can do to the world: it leaves every position
    as it was, whether it returns or raises; and what it adds to the
    trace is nothing, or one save followed by one post. *)
Lemma send_telegram_effect (msg symbol : string) (w : world) :
  ∃ o w', send_telegram msg (Some symbol) w = (o, w')
    ∧ same_positions (state w) (state w')
    ∧ (trace w' = trace w
       ∨ ∃ s, o = Ok tt ∧ trace w' = (trace w ++ [Saved s; Posted msg])%list)
    ∧ (record_ok (state w) symbol → slot_ok (symbol_last (state w) symbol) →
       slot_ok (global_last (state w)) → o = Ok tt).
Proof.
  unfold send_telegram. destruct credentials; simpl.
  2:{ eexists _, _. split; [done|]. split_and!; [apply same_positions_refl|by left|done]. }
  unfold bind, should_send, time_time, get_state, lift. simpl.
  destruct (should_send_at (clock (ticks w)) (state w) symbol msg) as [[]|] eqn:Hs; simpl.
  - unfold mark_sent, bind, time_time, get_state, lift, modify, save_state, post. simpl.
    destruct (mark_sent_at (clock (S (ticks w))) (state w) symbol msg) as [s'|] eqn:Hm; simpl.
    + eexists _, _. split; [done|]. simpl. split_and!.
      * by eapply same_positions_mark.
      * right. eexists. split; [done|]. by rewrite <- app_assoc.
      * done.
    + eexists _, _. split; [done|]. simpl.
      split_and!; [apply same_positions_refl|by left|].
      intros Hrec _ _. by rewrite mark_sent_at_ok in Hm.
  - eexists _, _. split; [done|]. simpl.
    split_and!; [apply same_positions_refl|by left|done].
  - eexists _, _. split; [done|]. simpl.
    split_and!; [apply same_positions_refl|by left|].
    intros Hrec Hsym Hglob.
    destruct (should_send_at_spec (clock (ticks w)) (state w) symbol msg) as (b & Hb & _);
      try done.
    by rewrite Hb in Hs.
Qed.

Lemma same_positions_trans (s1 s2 s3 : gmap string value) :
  same_positions s1 s2 → same_positions s2 s3 → same_positions s1 s3.
Proof.
  intros H12 H23 k r Hk Hr.
  destruct (H12 k r Hk Hr) as (r2 & Hr2 & Hf2).
  destruct (H23 k r2 Hk Hr2) as (r3 & Hr3 & Hf3).
  exists r3. split; [done|]. intros f Hf. by rewrite Hf3, Hf2.
Qed.

(** Updating the record of one instrument in the same way on both sides
    keeps two snapshots alike. *)
Lemma same_positions_update (g : gmap string value → gmap string value)
    (s s' : gmap string value) (k : string) (r r' : gmap string value) :
  (∀ a b f, f ≠ "last_msg" →
     (∀ f', f' ≠ "last_msg" → b !! f' = a !! f') → g b !! f = g a !! f) →
  same_positions s s' →
  s !! k = Some (VDict r) → s' !! k = Some (VDict r') →
  same_positions (<[k := VDict (g r)]> s) (<[k := VDict (g r')]> s').
Proof.
  intros Hg Hss Hr Hr' k0 r0 Hk0 Hr0.
  destruct (decide (k = k0)) as [<-|Hne].
  - rewrite lookup_insert_eq in Hr0. injection Hr0 as <-.
    rewrite lookup_insert_eq. eexists. split; [done|].
    intros f Hf. apply Hg; [done|].
    destruct (Hss k r Hk0 Hr) as (r2 & Hr2 & Hf2). by simplify_eq.
  - rewrite lookup_insert_ne in Hr0 by done. rewrite lookup_insert_ne by done.
    by apply Hss.
Qed.

Lemma closed_compat (a b : gmap string value) (f : string) :
  f ≠ "last_msg" → (∀ f', f' ≠ "last_msg" → b !! f' = a !! f') →
  closed b !! f = closed a !! f.
Proof.
  intros Hf Hab. unfold closed. rewrite !lookup_insert.
  repeat case_decide; auto.
Qed.

Lemma insert_compat (i : string) (v : value) (a b : gmap string value) (f : string) :
  f ≠ "last_msg" → (∀ f', f' ≠ "last_msg" → b !! f' = a !! f') →
  <[i := v]> b !! f = <[i := v]> a !! f.
Proof.
  intros Hf Hab. rewrite !lookup_insert. case_decide; auto.
Qed.

(** The evaluation of an instrument that is not in a position. *)
Lemma evaluate_flat (symbol : string) (b : bars) (w : world)
    (r : gmap string value) (ip : value) :
  state w !! symbol = Some (VDict r) →
  r !! "in_position" = Some ip →
  truthy ip = false →
  ∃ o w', evaluate symbol b w = (o, w')
    ∧ if crossed_up (prev_short b) (prev_long b) (last_short b) (last_long b)
      then (o = Ok Entered ∨ o = Raise)
           ∧ same_positions (<[symbol := VDict (opened (price b) r)]> (state w)) (state w')
           ∧ (slots_ok (state w) symbol → symbol ≠ "global_last_msg" → o = Ok Entered)
      else o = Ok Stay ∧ w' = w.
Proof.
  intros Hr Hip Hfalse.
  unfold evaluate, bind at 1 2 3, get_state, lift. cbn [fst snd].
  unfold py_getitem at 1. rewrite Hr. cbn [py_getitem]. rewrite Hip, Hfalse. cbn [negb].
  destruct (crossed_up _ _ _ _); [|by eexists _, _].
  unfold bind at 1. rewrite (set_field_ok w _ _ _ r) by done.
  unfold bind at 1. erewrite set_field_ok by (simpl; apply lookup_insert_eq).
  unfold bind at 1. erewrite set_field_ok by (simpl; apply lookup_insert_eq).
  unfold with_state. cbn [state disk ticks trace]. rewrite !insert_insert_eq.
  fold (opened (price b) r).
  match goal with |- context [bind _ _ ?w3] => set (w3' := w3) end.
  unfold bind, ret.
  destruct (send_telegram_effect
              (render (SignalTable symbol (price b) (daily_ema100 b) (daily_ema200 b)))
              symbol w3') as (o & w' & -> & Hsame & _ & Hok).
  destruct o as [[]|]; eexists _, _; (split; [done|]).
  - split_and!; [by left|done|done].
  - split_and!; [by right|done|].
    intros [Hs Hg] Hne. exfalso.
    assert (Ok () = Raise) as Habs; [|done].
    symmetry. apply Hok.
    + right. subst w3'. simpl. rewrite lookup_insert_eq. eauto.
    + subst w3'. unfold symbol_last, record_of in *. simpl.
      rewrite lookup_insert_eq. rewrite Hr in Hs.
      unfold opened. by rewrite !lookup_insert_ne.
    + subst w3'. unfold global_last in *. simpl. by rewrite lookup_insert_ne.
Qed.

Lemma bind_lift_ok {A B} (a : A) (k : A → M B) (w : world) :
  bind (lift (Ok a)) k w = k a w.
Proof. done. Qed.

Lemma bind_lift_raise {A B} (k : A → M B) (w : world) :
  bind (lift (@Raise A)) k w = (Raise, w).
Proof. done. Qed.

Lemma bind_get_state {B} (k : gmap string value → M B) (w : world) :
  bind get_state k w = k (state w) w.
Proof. done. Qed.

Lemma py_getitem_dict (d : gmap string value) (k : string) (v : value) :
  d !! k = Some v → py_getitem (VDict d) k = Ok v.
Proof. intros H. unfold py_getitem. by rewrite H. Qed.

Lemma float_of_num_ok (n : num) (x : spec_float) :
  float_of_num n = Ok x → x = to_float n.
Proof.
  destruct n as [z|f]; cbn [float_of_num to_float].
  - unfold int_to_float. by destruct (float_of_Z z); intros [= <-].
  - by intros [= <-].
Qed.

Lemma take_profit_level_ok (entry tp : value) (L : spec_float) :
  take_profit_level entry tp = Ok L →
  ∃ e, as_num entry = Ok e ∧ float_of_num e = Ok (to_float e).
Proof.
  unfold take_profit_level. intros H.
  destruct (py_truediv tp (VInt 100)) as [q|]; [|done]. cbn [obind] in H.
  destruct (as_num entry) as [e|]; [|done]. cbn [obind] in H.
  destruct (float_of_num e) as [x|] eqn:Hx; [|done].
  exists e. split; [done|]. rewrite Hx. f_equal. exact (float_of_num_ok _ _ Hx).
Qed.

(** Where the take-profit level can be computed, so can the stop level. *)
Lemma stop_loss_level_ok (entry tp : value) (e : num) (L : spec_float) :
  take_profit_level entry tp = Ok L →
  as_num entry = Ok e →
  stop_loss_level entry = Ok (fmul (to_float e) stop_factor).
Proof.
  intros HL He. destruct (take_profit_level_ok _ _ _ HL) as (e' & He' & Hx).
  rewrite He in He'. injection He' as <-.
  unfold stop_loss_level.
  change (py_truediv (VInt STOP_LOSS) (VInt 100))
    with (Ok (fdiv (float_of_Z STOP_LOSS) (float_of_Z 100))).
  cbn [obind]. rewrite He. cbn [obind]. rewrite Hx. done.
Qed.

(** The evaluation of an instrument that is in a position whose levels
    can be computed. *)
Lemma evaluate_open (symbol : string) (b : bars) (w : world)
    (r : gmap string value) (ip entry : value) (e : num) (L : spec_float) :
  symbol ≠ "global_last_msg" →
  state w !! symbol = Some (VDict r) →
  r !! "in_position" = Some ip →
  truthy ip = true →
  r !! "entry_price" = Some entry →
  as_num entry = Ok e →
  take_profit_level entry (default (VInt TAKE_PROFIT) (r !! "take_profit")) = Ok L →
  ∃ o w', evaluate symbol b w = (o, w')
    ∧ if fleb L (price b) then
        ((o = Ok TookProfit
          ∧ same_positions (<[symbol := VDict (closed r)]> (state w)) (state w'))
         ∨ (o = Raise ∧ same_positions (state w) (state w')))
        ∧ (slots_ok (state w) symbol → o = Ok TookProfit)
      else if fleb (price b) (fmul (to_float e) stop_factor) then
        ((o = Ok StoppedOut
          ∧ same_positions (<[symbol := VDict (closed r)]> (state w)) (state w'))
         ∨ (o = Raise ∧ same_positions (state w) (state w')))
        ∧ (slots_ok (state w) symbol → num_is_zero e = false → o = Ok StoppedOut)
      else if crossed_up (prev_ema100 b) (prev_ema200 b) (daily_ema100 b) (daily_ema200 b)
              && py_ne_int (default VNone (r !! "take_profit")) UPGRADED_TP then
        (o = Ok Upgraded ∨ o = Raise)
        ∧ same_positions
            (<[symbol := VDict (<["take_profit" := VInt UPGRADED_TP]> r)]> (state w))
            (state w')
        ∧ (slots_ok (state w) symbol → o = Ok Upgraded)
      else o = Ok Stay ∧ w' = w.
Proof.
  intros Hne Hr Hip Htrue Hentry He HL.
  unfold evaluate. rewrite bind_get_state.
  rewrite (py_getitem_dict _ _ _ Hr), bind_lift_ok.
  rewrite (py_getitem_dict _ _ _ Hip), bind_lift_ok.
  rewrite Htrue. cbn [negb].
  rewrite (py_getitem_dict _ _ _ Hentry), bind_lift_ok.
  unfold py_get at 1. rewrite bind_lift_ok, HL, bind_lift_ok.
  assert (record_ok (state w) symbol) as Hrec by (right; eauto).
  destruct (fleb L (price b)).
  { rewrite He, bind_lift_ok. unfold bind at 1.
    match goal with |- context [send_telegram ?m _ w] =>
      destruct (send_telegram_effect m symbol w) as (o & w1 & -> & Hsame & _ & Hok) end.
    destruct o as [[]|].
    - destruct (Hsame symbol r Hne Hr) as (r1 & Hr1 & Hf1).
      unfold bind at 1. rewrite (close_position_ok w1 symbol r1 Hr1).
      unfold ret. eexists _, _. split; [done|]. split; [|done].
      left. split; [done|]. simpl.
      apply same_positions_update; auto using closed_compat.
    - eexists _, _. split; [done|]. split; [by right|].
      intros [??]. exfalso. assert (@Raise unit = Ok ()) by auto. done. }
  rewrite (stop_loss_level_ok _ _ _ _ HL He), bind_lift_ok.
  destruct (fleb (price b) _).
  { unfold format_stoploss_log. rewrite He. cbn [obind].
    destruct (num_is_zero e).
    { rewrite bind_lift_raise. eexists _, _. split; [done|].
      split; [right; split; [done|apply same_positions_refl]|done]. }
    rewrite bind_lift_ok. unfold bind at 1.
    match goal with |- context [send_telegram ?m _ w] =>
      destruct (send_telegram_effect m symbol w) as (o & w1 & -> & Hsame & _ & Hok) end.
    destruct o as [[]|].
    - destruct (Hsame symbol r Hne Hr) as (r1 & Hr1 & Hf1).
      unfold bind at 1. rewrite (close_position_ok w1 symbol r1 Hr1).
      unfold ret. eexists _, _. split; [done|]. split; [|done].
      left. split; [done|]. simpl.
      apply same_positions_update; auto using closed_compat.
    - eexists _, _. split; [done|]. split; [by right|].
      intros [??] _. exfalso. assert (@Raise unit = Ok ()) by auto. done. }
  destruct (crossed_up _ _ _ _); cbn [andb]; [|by eexists _, _].
  unfold py_get. rewrite bind_lift_ok.
  destruct (py_ne_int _ _); [|by eexists _, _].
  unfold bind at 1. rewrite (set_field_ok w _ _ _ r) by done.
  match goal with |- context [bind _ _ ?w3] => set (w3' := w3) end.
  unfold bind, ret.
  destruct (send_telegram_effect (render (UpgradeLine symbol)) symbol w3')
    as (o & w' & -> & Hsame & _ & Hok).
  assert (slots_ok (state w) symbol → o = Ok ()) as Hok'.
  { intros [Hs Hg]. apply Hok.
    - right. subst w3'. simpl. rewrite lookup_insert_eq. eauto.
    - subst w3'. unfold symbol_last, record_of in *. simpl.
      rewrite lookup_insert_eq. rewrite Hr in Hs. by rewrite lookup_insert_ne.
    - subst w3'. unfold global_last in *. simpl. by rewrite lookup_insert_ne. }
  destruct o as [[]|]; eexists _, _; (split; [done|]).
  - split_and!; [by left|done|done].
  - split_and!; [by right|done|].
    intros Hs. by specialize (Hok' Hs).
Qed.

(** Every evaluation of an instrument does one of four things to the
    positions: nothing, open the instrument's position, close it, or
    raise its take-profit target. *)
Lemma evaluate_summary (symbol : string) (b : bars) (w : world) :
  symbol ≠ "global_last_msg" →
  ∃ o w', evaluate symbol b w = (o, w')
    ∧ (((o = Raise ∨ o = Ok Stay) ∧ same_positions (state w) (state w'))
       ∨ (∃ r ip, state w !! symbol = Some (VDict r)
            ∧ r !! "in_position" = Some ip ∧ truthy ip = false
            ∧ crossed_up (prev_short b) (prev_long b) (last_short b) (last_long b) = true
            ∧ (o = Ok Entered ∨ o = Raise)
            ∧ same_positions (<[symbol := VDict (opened (price b) r)]> (state w)) (state w'))
       ∨ (∃ r ip, state w !! symbol = Some (VDict r)
            ∧ r !! "in_position" = Some ip ∧ truthy ip = true
            ∧ (o = Ok TookProfit ∨ o = Ok StoppedOut)
            ∧ same_positions (<[symbol := VDict (closed r)]> (state w)) (state w'))
       ∨ (∃ r ip entry e, state w !! symbol = Some (VDict r)
            ∧ r !! "in_position" = Some ip ∧ truthy ip = true
            ∧ r !! "entry_price" = Some entry ∧ as_num entry = Ok e
            ∧ crossed_up (prev_ema100 b) (prev_ema200 b) (daily_ema100 b) (daily_ema200 b) = true
            ∧ py_ne_int (default VNone (r !! "take_profit")) UPGRADED_TP = true
            ∧ (o = Ok Upgraded ∨ o = Raise)
            ∧ same_positions
                (<[symbol := VDict (<["take_profit" := VInt UPGRADED_TP]> r)]> (state w))
                (state w'))).
Proof.
  intros Hne.
  destruct (state w !! symbol) as [v|] eqn:Hr.
  2:{ eexists _, _. split; [|left; split; [by left|apply same_positions_refl]].
      unfold evaluate. rewrite bind_get_state. unfold py_getitem at 1. by rewrite Hr. }
  assert ((∃ r, v = VDict r) ∨ py_getitem (VDict (state w)) symbol
            = Ok v ∧ py_getitem v "in_position" = Raise) as [[r ->]|[Hv Hnd]].
  { rewrite (py_getitem_dict _ _ _ Hr). destruct v; eauto. }
  2:{ eexists _, _. split; [|left; split; [by left|apply same_positions_refl]].
      unfold evaluate. by rewrite bind_get_state, Hv, bind_lift_ok, Hnd. }
  destruct (r !! "in_position") as [ip|] eqn:Hip.
  2:{ eexists _, _. split; [|left; split; [by left|apply same_positions_refl]].
      unfold evaluate. rewrite bind_get_state, (py_getitem_dict _ _ _ Hr), bind_lift_ok.
      unfold py_getitem at 1. by rewrite Hip. }
  destruct (truthy ip) eqn:Htr.
  2:{ destruct (evaluate_flat symbol b w r ip Hr Hip Htr) as (o & w' & Hev & Hcase).
      exists o, w'. split; [done|].
      destruct (crossed_up (prev_short b) _ _ _) eqn:Hc.
      - right; left. destruct Hcase as (Ho & Hsame & _). by exists r, ip.
      - destruct Hcase as [-> ->]. left. split; [by right|apply same_positions_refl]. }
  destruct (r !! "entry_price") as [entry|] eqn:Hentry.
  2:{ eexists _, _. split; [|left; split; [by left|apply same_positions_refl]].
      unfold evaluate. rewrite bind_get_state, (py_getitem_dict _ _ _ Hr), bind_lift_ok.
      rewrite (py_getitem_dict _ _ _ Hip), bind_lift_ok, Htr. cbn [negb].
      unfold py_getitem at 1. by rewrite Hentry. }
  destruct (take_profit_level entry (default (VInt TAKE_PROFIT) (r !! "take_profit")))
    as [L|] eqn:HL.
  2:{ eexists _, _. split; [|left; split; [by left|apply same_positions_refl]].
      unfold evaluate. rewrite bind_get_state, (py_getitem_dict _ _ _ Hr), bind_lift_ok.
      rewrite (py_getitem_dict _ _ _ Hip), bind_lift_ok, Htr. cbn [negb].
      rewrite (py_getitem_dict _ _ _ Hentry), bind_lift_ok.
      unfold py_get at 1. by rewrite bind_lift_ok, HL. }
  destruct (take_profit_level_ok _ _ _ HL) as (e & He & _).
  destruct (evaluate_open symbol b w r ip entry e L Hne Hr Hip Htr Hentry He HL)
    as (o & w' & Hev & Hcase).
  exists o, w'. split; [done|].
  destruct (fleb L (price b)).
  { destruct Hcase as [[[-> Hsame]|[-> Hsame]] _].
    - right; right; left. exists r, ip. split_and!; auto.
    - left. split; [by left|done]. }
  destruct (fleb (price b) _).
  { destruct Hcase as [[[-> Hsame]|[-> Hsame]] _].
    - right; right; left. exists r, ip. split_and!; auto.
    - left. split; [by left|done]. }
  destruct (crossed_up (prev_ema100 b) _ _ _) eqn:Hc; cbn [andb] in Hcase.
  2:{ destruct Hcase as [-> ->]. left. split; [by right|apply same_positions_refl]. }
  destruct (py_ne_int _ _) eqn:Hp.
  2:{ destruct Hcase as [-> ->]. left. split; [by right|apply same_positions_refl]. }
  destruct Hcase as (Ho & Hsame & _).
  right; right; right. exists r, ip, entry, e. split_and!; auto.
Qed.

Lemma same_positions_field (s s' : gmap string value) (k f : string)
    (r : gmap string value) :
  same_positions s s' → s !! k = Some (VDict r) →
  k ≠ "global_last_msg" → f ≠ "last_msg" →
  field_of s' k f = r !! f.
Proof.
  intros Hss Hr Hk Hf. destruct (Hss k r Hk Hr) as (r' & Hr' & Hfs).
  unfold field_of, record_of. rewrite Hr'. by apply Hfs.
Qed.

(** C2. For an instrument that is not in a position, the evaluation opens
    one exactly when the 4h averages cross upward, strictly on both bars
    (equal averages on either bar never trigger); opening sets
    [in_position] to true, [entry_price] to the close of the current bar
    and [take_profit] to [TAKE_PROFIT]. *)
Theorem flat_entry (symbol : string) (b : bars) (w : world)
    (r : gmap string value) (ip : value) :
  symbol ≠ "global_last_msg" →
  state w !! symbol = Some (VDict r) →
  r !! "in_position" = Some ip →
  truthy ip = false →
  let crossed :=
    fltb (prev_short b) (prev_long b) && fltb (last_long b) (last_short b) in
  ∃ o w', evaluate symbol b w = (o, w')
    ∧ (field_of (state w') symbol "in_position" = Some (VBool true) ↔ crossed = true)
    ∧ (crossed = true →
         field_of (state w') symbol "entry_price" = Some (VFloat (price b))
         ∧ field_of (state w') symbol "take_profit" = Some (VInt TAKE_PROFIT))
    ∧ (crossed = false → o = Ok Stay ∧ w' = w)
    ∧ (slots_ok (state w) symbol → (o = Ok Entered ↔ crossed = true))
    ∧ (feqb (prev_short b) (prev_long b) = true
       ∨ feqb (last_short b) (last_long b) = true → crossed = false).
Proof.
  intros Hne Hr Hip Hfalse crossed.
  destruct (evaluate_flat symbol b w r ip Hr Hip Hfalse) as (o & w' & Hev & Hcase).
  exists o, w'. split; [done|].
  fold (crossed_up (prev_short b) (prev_long b) (last_short b) (last_long b)) in crossed.
  assert (feqb (prev_short b) (prev_long b) = true
          ∨ feqb (last_short b) (last_long b) = true → crossed = false) as Hstrict.
  { intros [H|H]; apply crossed_up_strict; auto. }
  destruct (crossed_up _ _ _ _) eqn:Hc; subst crossed.
  - destruct Hcase as (Ho & Hsame & Hok).
    assert (∀ f, f ≠ "last_msg" →
              field_of (state w') symbol f = opened (price b) r !! f) as Hf.
    { intros f Hf. eapply same_positions_field; try done. apply lookup_insert_eq. }
    split_and!.
    + rewrite Hf by done. unfold opened. by simplify_map_eq.
    + intros _. rewrite !Hf by done. unfold opened. by simplify_map_eq.
    + done.
    + intros Hs. split; [done|]. intros _. by apply Hok.
    + done.
  - destruct Hcase as [-> ->].
    split_and!.
    + unfold field_of, record_of. rewrite Hr, Hip. split; [|done].
      intros [= ->]. done.
    + done.
    + done.
    + done.
    + done.
Qed.


Lemma as_num_not_none (v : value) (n : num) : as_num v = Ok n → v ≠ VNone.
Proof. by intros H ->. Qed.

(** C3. After every transition of the state machine (entry, take-profit
    exit, stop-loss exit, upgrade) the record of the instrument has a
    non-null [entry_price] exactly when [in_position] is true, and a
    position that was closed, by either exit, has [take_profit] back at
    [TAKE_PROFIT]. *)
Theorem transition_invariant (symbol : string) (b : bars) (w w' : world)
    (t : transition) :
  symbol ≠ "global_last_msg" →
  evaluate symbol b w = (Ok t, w') →
  t ≠ Stay →
  ∃ ip ep,
    field_of (state w') symbol "in_position" = Some ip
    ∧ field_of (state w') symbol "entry_price" = Some ep
    ∧ (ep ≠ VNone ↔ truthy ip = true)
    ∧ (t = Entered ∨ t = Upgraded → truthy ip = true)
    ∧ (t = TookProfit ∨ t = StoppedOut →
         truthy ip = false
         ∧ field_of (state w') symbol "take_profit" = Some (VInt TAKE_PROFIT)).
Proof.
  intros Hne Hev Ht.
  destruct (evaluate_summary symbol b w Hne) as (o & w1 & Hev1 & Hcases).
  rewrite Hev in Hev1. injection Hev1 as <- <-.
  assert (∀ (g : gmap string value → gmap string value) r,
            same_positions (<[symbol := VDict (g r)]> (state w)) (state w') →
            ∀ f, f ≠ "last_msg" → field_of (state w') symbol f = g r !! f) as Hfields.
  { intros g r Hsame f Hf. eapply same_positions_field; try done. apply lookup_insert_eq. }
  destruct Hcases as [[[?|?] _]
                     |[(r & ip & Hr & Hip & Htr & Hc & Ho & Hsame)
                      |[(r & ip & Hr & Hip & Htr & Ho & Hsame)
                       |(r & ip & entry & e & Hr & Hip & Htr & Hentry & He & Hc & Hp & Ho & Hsame)]]].
  - done.
  - congruence.
  - destruct Ho as [[= ->]|?]; [|done].
    exists (VBool true), (VFloat (price b)).
    rewrite !(Hfields (opened (price b)) r Hsame) by done. unfold opened.
    split_and!; try (by simplify_map_eq). intros [|]; done.
  - exists (VBool false), VNone.
    rewrite !(Hfields closed r Hsame) by done. unfold closed.
    split_and!; try (by simplify_map_eq).
    all: try (intros [|]; destruct Ho; congruence).
    all: try (intros _; by simplify_map_eq).
  - destruct Ho as [[= ->]|?]; [|done].
    exists ip, entry.
    rewrite !(Hfields (insert "take_profit" (VInt UPGRADED_TP)) r Hsame) by done.
    split_and!; try (by simplify_map_eq).
    all: try (intros [|]; done).
    split; [done|]. intros _. by eapply as_num_not_none.
Qed.

(** One evaluation, of any instrument, leaves the upgraded target of an
    open position of [symbol] in place unless it closes that position. *)
Lemma upgraded_step (symbol k : string) (b : bars) (w : world) :
  symbol ≠ "global_last_msg" → k ≠ "global_last_msg" →
  is_open (state w) symbol →
  field_of (state w) symbol "take_profit" = Some (VInt UPGRADED_TP) →
  is_open (state (evaluate k b w).2) symbol →
  field_of (state (evaluate k b w).2) symbol "take_profit" = Some (VInt UPGRADED_TP).
Proof.
  intros Hne Hk (ip0 & Hip0 & Htr0) Htp Hopen.
  destruct (evaluate_summary k b w Hk) as (o & w' & Hev & Hcases).
  rewrite Hev in *. cbn [snd] in *.
  assert (∃ r0, state w !! symbol = Some (VDict r0)) as [r0 Hr0].
  { unfold field_of, record_of in Hip0.
    destruct (state w !! symbol) as [[]|]; try done. eauto. }
  assert (r0 !! "in_position" = Some ip0) as Hip0'.
  { unfold field_of, record_of in Hip0. by rewrite Hr0 in Hip0. }
  assert (r0 !! "take_profit" = Some (VInt UPGRADED_TP)) as Htp'.
  { unfold field_of, record_of in Htp. by rewrite Hr0 in Htp. }
  assert (∀ s0, same_positions s0 (state w') → s0 !! symbol = Some (VDict r0) →
            field_of (state w') symbol "take_profit" = Some (VInt UPGRADED_TP)) as Hkeep.
  { intros s0 Hsame Hs0. by rewrite (same_positions_field s0 _ _ _ r0 Hsame Hs0). }
  destruct Hcases as [[_ Hsame]
                     |[(r & ip & Hr & Hip & Htr & Hc & Ho & Hsame)
                      |[(r & ip & Hr & Hip & Htr & Ho & Hsame)
                       |(r & ip & entry & e & Hr & Hip & Htr & Hentry & He & Hc & Hp & Ho & Hsame)]]].
  - by eapply Hkeep.
  - destruct (decide (k = symbol)) as [->|Hks].
    + simplify_eq. congruence.
    + eapply Hkeep; [done|]. by rewrite lookup_insert_ne.
  - destruct (decide (k = symbol)) as [->|Hks].
    + destruct Hopen as (ip1 & Hip1 & Htr1).
      erewrite same_positions_field in Hip1; [|done|apply lookup_insert_eq|done|done].
      unfold closed in Hip1. by simplify_map_eq.
    + eapply Hkeep; [done|]. by rewrite lookup_insert_ne.
  - destruct (decide (k = symbol)) as [->|Hks].
    + erewrite same_positions_field; [|done|apply lookup_insert_eq|done|done].
      by simplify_map_eq.
    + eapply Hkeep; [done|]. by rewrite lookup_insert_ne.
Qed.

Local Abbreviation evaluations := (evaluations clock credentials render chunks).

Lemma evaluations_cons (k : string) (b : bars) (steps : list (string * bars)) (w : world) :
  evaluations ((k, b) :: steps) w = evaluations steps (evaluate k b w).2.
Proof.
  unfold evaluations. cbn [for_each]. unfold bind at 1, try_except at 1. cbn [fst snd].
  unfold bind at 2, ret. by destruct (evaluate k b w) as [[]].
Qed.

(** C6. The upgrade fires only when the daily averages strictly cross
    upward and the target differs from [UPGRADED_TP], and it sets the
    target to [UPGRADED_TP].  It is one-way: once the target of an open
    position is the upgraded one, no later evaluation, of this or of any
    other instrument and whatever the bars, changes it for as long as the
    position stays open. *)
Theorem upgrade_one_way (symbol : string) (w : world) :
  symbol ≠ "global_last_msg" →
  (∀ b w' , evaluate symbol b w = (Ok Upgraded, w') →
     crossed_up (prev_ema100 b) (prev_ema200 b) (daily_ema100 b) (daily_ema200 b) = true
     ∧ py_ne_int (default VNone (field_of (state w) symbol "take_profit")) UPGRADED_TP = true
     ∧ is_open (state w) symbol
     ∧ is_open (state w') symbol
     ∧ field_of (state w') symbol "take_profit" = Some (VInt UPGRADED_TP))
  ∧ (∀ steps : list (string * bars),
       Forall (λ kb, kb.1 ≠ "global_last_msg") steps →
       field_of (state w) symbol "take_profit" = Some (VInt UPGRADED_TP) →
       (∀ n, is_open (state (evaluations (take n steps) w).2) symbol) →
       field_of (state (evaluations steps w).2) symbol "take_profit"
       = Some (VInt UPGRADED_TP)).
Proof.
  intros Hne. split.
  - intros b w' Hev.
    destruct (evaluate_summary symbol b w Hne) as (o & w1 & Hev1 & Hcases).
    rewrite Hev in Hev1. injection Hev1 as <- <-.
    destruct Hcases as [[[?|?] _]
                       |[(r & ip & Hr & Hip & Htr & Hc & [?|?] & Hsame)
                        |[(r & ip & Hr & Hip & Htr & [?|?] & Hsame)
                         |(r & ip & entry & e & Hr & Hip & Htr & Hentry & He & Hc & Hp & Ho & Hsame)]]];
      try done.
    assert (∀ f, f ≠ "last_msg" → field_of (state w') symbol f
                                   = <["take_profit" := VInt UPGRADED_TP]> r !! f) as Hf.
    { intros f Hf. eapply same_positions_field; try done. apply lookup_insert_eq. }
    split_and!.
    + done.
    + unfold field_of, record_of. by rewrite Hr.
    + exists ip. unfold field_of, record_of. by rewrite Hr.
    + exists ip. rewrite Hf by done. by simplify_map_eq.
    + rewrite Hf by done. by simplify_map_eq.
  - intros steps. revert w.
    induction steps as [|[k b] steps IH]; intros w Hks Htp Hopen; [done|].
    apply Forall_cons in Hks as [Hk Hks]. cbn [fst] in Hk.
    rewrite evaluations_cons. apply IH; [done| |].
    + apply upgraded_step; try done.
      * apply (Hopen 0%nat).
      * specialize (Hopen 1%nat). cbn [take] in Hopen.
        by rewrite evaluations_cons in Hopen.
    + intros n. specialize (Hopen (S n)). cbn [take] in Hopen.
      by rewrite evaluations_cons in Hopen.
Qed.

End Machine.

(** ** Cycle orchestrator *)

Section Cycle.

Variable clock : nat → Z.
Variable credentials : bool.
Variable download : string → string → list spec_float.
Variable ewm_mean : Z → list spec_float → list spec_float.
Variable render : notice → string.
Variable chunks : value → nat.

Local Abbreviation send_telegram := (send_telegram clock credentials chunks).
Local Abbreviation evaluate := (evaluate clock credentials render chunks).
Local Abbreviation process :=
  (process clock credentials download ewm_mean render chunks).
Local Abbreviation check_signals :=
  (check_signals clock credentials download ewm_mean render chunks).

Lemma quiet_ret {A} (a : A) : quiet (ret a).
Proof. done. Qed.

Lemma quiet_lift {A} (o : outcome A) : quiet (lift o).
Proof. done. Qed.

Lemma quiet_get_state : quiet get_state.
Proof. done. Qed.

Lemma quiet_bind {A B} (c : M A) (k : A → M B) :
  quiet c → (∀ a, quiet (k a)) → quiet (bind c k).
Proof.
  intros Hc Hk w. unfold bind. specialize (Hc w).
  destruct (c w) as [[a|] w1]; cbn [snd] in *; [|done].
  by rewrite Hk.
Qed.

Lemma quiet_set_field (symbol field : string) (v : value) :
  quiet (set_field symbol field v).
Proof.
  unfold set_field.
  repeat (apply quiet_bind; [first [apply quiet_get_state | apply quiet_lift]|intros]).
  done.
Qed.

Lemma quiet_close_position (symbol : string) : quiet (close_position symbol).
Proof.
  unfold close_position.
  repeat (apply quiet_bind; [apply quiet_set_field|intros]).
  apply quiet_set_field.
Qed.

Lemma quiet_sends_once {A} (c : M A) : quiet c → sends_once c.
Proof.
  intros Hc w. exists []. rewrite app_nil_r. split; [apply Hc|constructor].
Qed.

Lemma sends_once_bind_l {A B} (c : M A) (k : A → M B) :
  quiet c → (∀ a, sends_once (k a)) → sends_once (bind c k).
Proof.
  intros Hc Hk w. unfold bind. specialize (Hc w).
  destruct (c w) as [[a|] w1]; cbn [snd] in *.
  - rewrite <- Hc. apply Hk.
  - exists []. rewrite app_nil_r. split; [done|constructor].
Qed.

Lemma sends_once_bind_r {A B} (c : M A) (k : A → M B) :
  sends_once c → (∀ a, quiet (k a)) → sends_once (bind c k).
Proof.
  intros Hc Hk w. unfold bind. specialize (Hc w).
  destruct (c w) as [[a|] w1]; cbn [snd] in *; [|done].
  by rewrite Hk.
Qed.

Lemma sends_once_send_telegram (msg symbol : string) :
  sends_once (send_telegram msg (Some symbol)).
Proof.
  intros w.
  destruct (send_telegram_effect clock credentials chunks msg symbol w)
    as (o & w' & -> & _ & [Htr|(s & _ & Htr)] & _); cbn [snd].
  - exists []. rewrite app_nil_r. split; [done|constructor].
  - eexists. split; [done|constructor].
Qed.

Ltac quiet_step :=
  first [ apply quiet_ret | apply quiet_lift | apply quiet_get_state
        | apply quiet_set_field | apply quiet_close_position ].

Ltac once_step :=
  first [ apply quiet_sends_once; quiet_step
        | apply sends_once_bind_l; [quiet_step|intros]
        | apply sends_once_bind_r;
            [apply sends_once_send_telegram
            |intros; repeat (apply quiet_bind; [quiet_step|intros]); quiet_step]
        | match goal with
          | |- sends_once (if ?c then _ else _) => destruct c
          end ].

(** The evaluation of one instrument sends at most one notification. *)
Lemma sends_once_evaluate (symbol : string) (b : bars) :
  sends_once (evaluate symbol b).
Proof. unfold evaluate. repeat once_step. Qed.

Lemma sends_once_process (symbol : string) : sends_once (process symbol).
Proof.
  intros w. unfold process, try_except. cbn [snd].
  assert (sends_once
            (ob <- lift (fetch download ewm_mean symbol) ;;
             match ob with
             | Some b => evaluate symbol b ;;; ret ()
             | None => ret ()
             end)) as Hbody; [|apply Hbody].
  apply sends_once_bind_l; [apply quiet_lift|]. intros [b|].
  - apply sends_once_bind_r; [apply sends_once_evaluate|]. intros. apply quiet_ret.
  - apply quiet_sends_once, quiet_ret.
Qed.

Lemma for_each_process (l : list string) (w : world) :
  ∃ bs, length bs = length l ∧ Forall burst bs
    ∧ trace (for_each process l w).2 = (trace w ++ concat bs)%list.
Proof.
  revert w. induction l as [|k l IH]; intros w.
  - exists []. cbn. by rewrite app_nil_r.
  - cbn [for_each]. unfold bind at 1.
    destruct (sends_once_process k w) as (evs & Hevs & Hb).
    assert (∃ w1, process k w = (Ok (), w1)) as [w1 Hw1] by (by eexists).
    rewrite Hw1 in *. cbn [snd] in Hevs.
    destruct (IH w1) as (bs & Hlen & Hall & Htr).
    exists (evs :: bs). split_and!.
    + simpl. by rewrite Hlen.
    + by constructor.
    + rewrite Htr, Hevs. cbn [concat]. by rewrite app_assoc.
Qed.

Lemma for_each_process_ok (l : list string) (w : world) :
  (for_each process l w).1 = Ok ().
Proof.
  revert w. induction l as [|k l IH]; intros w; [done|].
  cbn [for_each]. unfold bind at 1.
  assert (∃ w1, process k w = (Ok (), w1)) as [w1 ->] by (by eexists).
  apply IH.
Qed.

Lemma saves_burst (evs : list event) : burst evs → saves evs = posts evs.
Proof. by intros []. Qed.

Lemma saves_concat (bs : list (list event)) :
  Forall burst bs →
  saves (concat bs) = posts (concat bs) ∧ (posts (concat bs) ≤ length bs)%nat.
Proof.
  induction 1 as [|evs bs Hb _ [IH1 IH2]]; [done|].
  cbn [concat]. unfold saves, posts in *. rewrite !List.filter_app, !length_app.
  destruct Hb; simpl in *; lia.
Qed.

(** C7, as the code has it.  A cycle adds to the trace, instrument by
    instrument, either nothing or the save that [mark_sent] makes right
    before a notification is posted, and then the one save at the end of
    the cycle.  So a cycle saves once more than it posts, and an
    instrument that posts nothing is followed by no save. *)
Theorem cycle_saves (w : world) :
  ∃ bs, length bs = length ASSETS ∧ Forall burst bs
    ∧ trace (check_signals w).2
      = (trace w ++ concat bs ++ [Saved (state (check_signals w).2)])%list
    ∧ saves (concat bs ++ [Saved (state (check_signals w).2)]) = S (posts (concat bs))
    ∧ (posts (concat bs) ≤ length ASSETS)%nat.
Proof.
  set (w0 := with_state (load_state (disk w)) w).
  set (w1 := (for_each process ASSETS w0).2).
  assert (check_signals w
          = (Ok (), emit (Saved (state w1))
                      (with_disk (run_ops chunks (save_ops chunks (state w1)) (disk w1)) w1)))
    as ->.
  { unfold check_signals, bind, modify, get_state, save_state. fold w0.
    pose proof (for_each_process_ok ASSETS w0) as Hok. subst w1.
    destruct (for_each process ASSETS w0) as [o w1]. cbn [fst snd] in *. by subst o. }
  destruct (for_each_process ASSETS w0) as (bs & Hlen & Hall & Htr). fold w1 in Htr.
  cbn [snd state trace emit with_disk].
  exists bs. split_and!; try done.
  - rewrite Htr. subst w0. cbn [trace with_state]. by rewrite app_assoc.
  - destruct (saves_concat bs Hall) as [Heq _].
    unfold saves in *. rewrite List.filter_app, length_app. simpl. unfold posts in *. lia.
  - destruct (saves_concat bs Hall) as [_ Hle]. by rewrite <- Hlen.
Qed.

End Cycle.

(** C7, as the specification words it, fails.  With credentials set and
    202 flat bars for every instrument, every instrument is evaluated to
    its end and the whole cycle saves once, not once per instrument and
    once more. *)
Lemma cycle_saves_not_per_instrument :
  let w' := (check_signals (λ _, 0) true calm_download (λ _ l, l) (λ _, "")
               (λ _, 0%nat) fresh_world).2 in
  trace w' = [Saved default_state]
  ∧ saves (trace w') ≠ S (length ASSETS).
Proof.
  assert ((check_signals (λ _, 0) true calm_download (λ _ l, l) (λ _, "")
             (λ _, 0%nat) fresh_world).2.(trace) = [Saved default_state]) as H.
  { by vm_compute. }
  cbn zeta. rewrite H. split; [done|]. by vm_compute.
Qed.

(** ** The properties at work on sample runs *)

Lemma well_formed_b_spec (s : gmap string value) :
  well_formed_b s = true → well_formed s.
Proof.
  unfold well_formed_b, well_formed.
  intros [Hrec Hg]%andb_true_iff. split.
  - intros k Hk. rewrite forallb_forall in Hrec.
    apply list_elem_of_In in Hk. specialize (Hrec k Hk).
    destruct (s !! k) as [[]|]; try done.
    eexists. split; [done|]. intros fv Hfv.
    rewrite forallb_forall in Hrec. apply list_elem_of_In in Hfv.
    specialize (Hrec fv Hfv). by apply bool_decide_eq_true in Hrec.
  - by apply bool_decide_eq_true in Hg.
Qed.


Lemma flat_entry_witness :
  ("BTC-USD" ≠ "global_last_msg"
   ∧ state flat_world !! "BTC-USD" = Some (VDict default_record)
   ∧ default_record !! "in_position" = Some (VBool false)
   ∧ truthy (VBool false) = false)
  ∧ ∃ o w', evaluate sample_clock true sample_render sample_chunks
              "BTC-USD" (crossing_bars 100) flat_world = (o, w')
            ∧ field_of (state w') "BTC-USD" "in_position" = Some (VBool true)
            ∧ field_of (state w') "BTC-USD" "entry_price" = Some (VFloat (float_of_Z 100))
            ∧ field_of (state w') "BTC-USD" "take_profit" = Some (VInt TAKE_PROFIT).
Proof.
  split.
  { split_and!; try (vm_compute; reflexivity). discriminate. }
  destruct (flat_entry sample_clock true sample_render sample_chunks
              "BTC-USD" (crossing_bars 100) flat_world default_record (VBool false))
    as (o & w' & Hev & Hiff & Hset & _);
    try (vm_compute; reflexivity); [discriminate|].
  exists o, w'. split; [exact Hev|].
  assert (fltb (prev_short (crossing_bars 100)) (prev_long (crossing_bars 100))
          && fltb (last_long (crossing_bars 100)) (last_short (crossing_bars 100)) = true)
    as Hc by (vm_compute; reflexivity).
  split; [apply Hiff, Hc|apply Hset, Hc].
Defined.

Lemma transition_invariant_witness :
  let run := evaluate sample_clock true sample_render sample_chunks
               "BTC-USD" (crossing_bars 100) flat_world in
  ("BTC-USD" ≠ "global_last_msg" ∧ run = (Ok Entered, run.2) ∧ Entered ≠ Stay)
  ∧ ∃ ip ep,
      field_of (state run.2) "BTC-USD" "in_position" = Some ip
      ∧ field_of (state run.2) "BTC-USD" "entry_price" = Some ep
      ∧ (ep ≠ VNone ↔ truthy ip = true).
Proof.
  intros run.
  assert (run = (Ok Entered, run.2)) as Hrun by (vm_compute; reflexivity).
  split.
  { split_and!; [discriminate|exact Hrun|discriminate]. }
  destruct (transition_invariant sample_clock true sample_render sample_chunks
              "BTC-USD" (crossing_bars 100) flat_world run.2 Entered)
    as (ip & ep & Hip & Hep & Hinv & _); [discriminate|exact Hrun|discriminate|].
  exists ip, ep. split_and!; assumption.
Defined.

Lemma should_send_gate_witness :
  (record_ok (state flat_world) "BTC-USD"
   ∧ slot_ok (symbol_last (state flat_world) "BTC-USD")
   ∧ slot_ok (global_last (state flat_world)))
  ∧ should_send sample_clock "BTC-USD" "X" flat_world = (Ok true, tick flat_world)
  ∧ ∃ s1, mark_sent_at 1000 (state flat_world) "BTC-USD" "X" = Ok s1
      ∧ should_send_at (1000 + 30) s1 "BTC-USD" "X" = Ok false
      ∧ should_send_at (1000 + 61) s1 "BTC-USD" "X" = Ok true
      ∧ should_send_at (1000 + 5) s1 "ETH-USD" "X" = Ok false
      ∧ should_send_at (1000 + 11) s1 "ETH-USD" "X" = Ok true.
Proof.
  assert (record_ok (state flat_world) "BTC-USD") as Hrec.
  { right. eexists. vm_compute. reflexivity. }
  assert (slot_ok (symbol_last (state flat_world) "BTC-USD")) as Hsym.
  { left. vm_compute. reflexivity. }
  assert (slot_ok (global_last (state flat_world))) as Hglob.
  { left. vm_compute. reflexivity. }
  split; [split_and!; assumption|].
  destruct (should_send_gate sample_clock flat_world "BTC-USD" "X" Hrec Hsym Hglob)
    as [_ Hex].
  split; [vm_compute; reflexivity|].
  apply (Hex 1000 "BTC-USD" "ETH-USD"); try discriminate; try exact Hrec.
  vm_compute. reflexivity.
Defined.

Lemma upgrade_one_way_witness :
  "BTC-USD" ≠ "global_last_msg"
  ∧ field_of
      (state (evaluations sample_clock true sample_render sample_chunks
                [("BTC-USD", crossing_bars 120); ("ETH-USD", crossing_bars 100)]
                (open_world UPGRADED_TP)).2)
      "BTC-USD" "take_profit"
    = Some (VInt UPGRADED_TP).
Proof.
  split; [discriminate|].
  apply (proj2 (upgrade_one_way sample_clock true sample_render sample_chunks
                  "BTC-USD" (open_world UPGRADED_TP) ltac:(discriminate))).
  - repeat constructor; discriminate.
  - vm_compute. reflexivity.
  - intros n. exists (VBool true).
    destruct n as [|[|[|n]]]; vm_compute; split; reflexivity.
Defined.

Lemma save_load_roundtrip_witness :
  well_formed lively_state
  ∧ load_state (disk (save_state sample_chunks lively_state flat_world).2) = lively_state
  ∧ field_of lively_state "ETH-USD" "in_position" = Some (VBool true)
  ∧ field_of lively_state "ETH-USD" "entry_price" = Some (VFloat (float_of_Z 100))
  ∧ symbol_last lively_state "ETH-USD" = sent_record "ALIM ETH-USD" 1699990000
  ∧ global_last lively_state = sent_record "ALIM ETH-USD" 1699990000.
Proof.
  assert (well_formed lively_state) as Hwf.
  { apply well_formed_b_spec. vm_compute. reflexivity. }
  split; [exact Hwf|]. split.
  - exact (save_load_roundtrip sample_chunks lively_state flat_world Hwf).
  - split_and!; reflexivity.
Defined.

Lemma mark_sent_frame_witness :
  ("BTC-USD" ≠ "global_last_msg" ∧ record_ok (state flat_world) "BTC-USD")
  ∧ ∃ w', mark_sent sample_clock sample_chunks "BTC-USD" "X" flat_world = (Ok (), w')
      ∧ state w' !! "global_last_msg" = Some (sent_record "X" 1700000000)
      ∧ state w' !! "ETH-USD" = state flat_world !! "ETH-USD".
Proof.
  assert (record_ok (state flat_world) "BTC-USD") as Hrec.
  { right. eexists. vm_compute. reflexivity. }
  split; [split; [discriminate|exact Hrec]|].
  destruct (mark_sent_frame sample_clock sample_chunks flat_world "BTC-USD" "X")
    as (w' & Hev & Hglob & _ & Hother); [discriminate|exact Hrec|].
  exists w'. split_and!; [exact Hev|exact Hglob|].
  apply Hother; discriminate.
Defined.

(** * More of the state file *)

(** ** More of the state store *)

Lemma default_state_lookup (k : string) :
  k ∈ ASSETS → default_state !! k = Some (VDict default_record).
Proof.
  assert (Forall (λ k, default_state !! k = Some (VDict default_record)) ASSETS) as H.
  { repeat constructor. }
  rewrite Forall_forall in H. apply H.
Qed.

Lemma default_state_other (k : string) :
  k ∉ ASSETS → default_state !! k = None.
Proof.
  intros Hk. unfold default_state. apply not_elem_of_list_to_map.
  rewrite <- list_fmap_compose. intros Hin. apply Hk.
  apply list_elem_of_fmap in Hin as (k' & -> & Hin). done.
Qed.

(** What one round of the fill loop does to a dictionary whose record for
    [k], if any, is a dictionary. *)
Lemma fill_fields_union (k : string) (l : list (string * value))
    (s r : gmap string value) :
  s !! k = Some (VDict r) →
  ofold (fill_field k) (VDict s) l
  = Ok (VDict (<[k := VDict (r ∪ list_to_map l)]> s)).
Proof.
  revert s r. induction l as [|[f v] l IH]; intros s r Hr.
  - cbn [ofold list_to_map foldr]. rewrite (right_id_L ∅ (∪)). by rewrite insert_id.
  - cbn [ofold]. unfold fill_field at 1. cbn [py_getitem fst snd].
    rewrite Hr. cbn [obind py_in].
    case_bool_decide as Hf; cbn [obind].
    + rewrite (IH s r Hr). do 3 f_equal. f_equal.
      apply map_eq. intros i. cbn [list_to_map foldr uncurry fst snd].
      rewrite !lookup_union. destruct Hf as [x Hx].
      destruct (decide (f = i)) as [<-|Hne].
      * rewrite Hx. by destruct (list_to_map l !! f), (<[f:=v]> (list_to_map l) !! f).
      * by rewrite lookup_insert_ne.
    + cbn [py_setitem obind].
      rewrite (IH _ (<[f:=v]> r)) by apply lookup_insert_eq.
      rewrite insert_insert_eq. do 3 f_equal. f_equal.
      apply map_eq. intros i. cbn [list_to_map foldr uncurry fst snd].
      rewrite !lookup_union.
      assert (r !! f = None) as Hnone.
      { destruct (r !! f) eqn:E; [|done]. destruct Hf. eauto. }
      destruct (decide (f = i)) as [<-|Hne].
      * rewrite !lookup_insert_eq, Hnone. by destruct (list_to_map l !! f).
      * by rewrite !lookup_insert_ne.
Qed.

Lemma fill_symbol_record (k : string) (s : gmap string value) :
  (∀ v, s !! k = Some v → ∃ r, v = VDict r) →
  fill_symbol (VDict s) k
  = Ok (VDict (<[k := VDict (record_of s k ∪ default_record)]> s)).
Proof.
  intros Hdict. unfold fill_symbol, record_of. cbn [py_in obind].
  destruct (s !! k) as [v|] eqn:Hk.
  - destruct (Hdict v eq_refl) as [r ->].
    rewrite bool_decide_eq_true_2 by eauto. cbn [negb].
    by rewrite (fill_fields_union k default_fields s r Hk).
  - rewrite bool_decide_eq_false_2 by (by intros [? ?]). cbn [negb py_setitem].
    by rewrite (left_id_L ∅ (∪)).
Qed.

Lemma record_of_insert_ne (s : gmap string value) (k k' : string) (v : value) :
  k ≠ k' → record_of (<[k := v]> s) k' = record_of s k'.
Proof. intros Hne. unfold record_of. by rewrite lookup_insert_ne. Qed.

Lemma fill_symbols_merge (l : list string) (s : gmap string value) :
  NoDup l →
  (∀ k v, k ∈ l → s !! k = Some v → ∃ r, v = VDict r) →
  ∃ s', ofold fill_symbol (VDict s) l = Ok (VDict s')
    ∧ (∀ k, k ∈ l → s' !! k = Some (VDict (record_of s k ∪ default_record)))
    ∧ (∀ k, k ∉ l → s' !! k = s !! k).
Proof.
  revert s. induction l as [|k l IH]; intros s Hnd Hdict.
  - exists s. split_and!; [done| |done]. intros k Hk. by apply elem_of_nil in Hk.
  - apply NoDup_cons in Hnd as [Hk Hnd].
    cbn [ofold]. rewrite fill_symbol_record by (intros v; apply Hdict; left).
    cbn [obind].
    destruct (IH (<[k := VDict (record_of s k ∪ default_record)]> s) Hnd)
      as (s' & -> & Hin & Hout).
    { intros k' v Hk' Hv. rewrite lookup_insert_ne in Hv by set_solver.
      apply (Hdict k' v); [by right|done]. }
    exists s'. split_and!; [done| |].
    + intros k' [->|Hk']%elem_of_cons.
      * rewrite Hout by done. by rewrite lookup_insert_eq.
      * rewrite Hin by done. rewrite record_of_insert_ne; [done|set_solver].
    + intros k' Hk'. apply not_elem_of_cons in Hk' as [Hne Hk'].
      rewrite Hout by done. by rewrite lookup_insert_ne.
Qed.

Lemma ASSETS_NoDup : NoDup ASSETS.
Proof. apply (bool_decide_eq_true_1 (NoDup ASSETS)). by vm_compute. Qed.

Lemma global_not_asset : "global_last_msg" ∉ ASSETS.
Proof. apply (bool_decide_eq_true_1 ("global_last_msg" ∉ ASSETS)). by vm_compute. Qed.

Lemma default_record_fields (r : gmap string value) (fv : string * value) :
  fv ∈ default_fields → is_Some ((r ∪ default_record) !! fv.1).
Proof.
  intros Hfv. rewrite lookup_union.
  assert (is_Some (default_record !! fv.1)) as [x ->].
  { unfold default_fields in Hfv.
    repeat (apply elem_of_cons in Hfv as [->|Hfv]); try (by eexists).
    by apply elem_of_nil in Hfv. }
  destruct (r !! fv.1); by eexists.
Qed.

Lemma load_state_merge_core (d : gmap string file) (s : gmap string value) :
  d !! STATE_FILE = Some (Whole (VDict s)) →
  (∀ k v, k ∈ ASSETS → s !! k = Some v → ∃ r, v = VDict r) →
  (∀ k, k ∈ ASSETS →
     load_state d !! k = Some (VDict (record_of s k ∪ default_record)))
  ∧ load_state d !! "global_last_msg" = Some (default VNone (s !! "global_last_msg"))
  ∧ (∀ k, k ∉ ASSETS → k ≠ "global_last_msg" → load_state d !! k = s !! k)
  ∧ well_formed (load_state d).
Proof.
  intros Hd Hdict.
  destruct (fill_symbols_merge ASSETS s ASSETS_NoDup Hdict) as (s' & Hfill & Hin & Hout).
  pose proof global_not_asset as Hg.
  assert (load_state d
          = <["global_last_msg" := default VNone (s !! "global_last_msg")]> s') as ->.
  { unfold load_state. rewrite Hd. cbn [json_load obind].
    unfold fill_defaults. rewrite Hfill. cbn [obind]. unfold fill_global. cbn [py_in obind].
    rewrite <- (Hout _ Hg).
    destruct (s' !! "global_last_msg") as [v|] eqn:Hv.
    - rewrite bool_decide_eq_true_2 by eauto. cbn [negb default]. by rewrite insert_id.
    - rewrite bool_decide_eq_false_2 by (by intros [? ?]). done. }
  assert (∀ k, k ∈ ASSETS → k ≠ "global_last_msg") as Hne by (intros k Hk ->; done).
  split_and!.
  - intros k Hk. rewrite lookup_insert_ne by (by apply not_eq_sym, Hne). by apply Hin.
  - by rewrite lookup_insert_eq.
  - intros k Hk Hkg. rewrite lookup_insert_ne by done. by apply Hout.
  - split.
    + intros k Hk. eexists. rewrite lookup_insert_ne by (by apply not_eq_sym, Hne).
      split; [by apply Hin|]. apply default_record_fields.
    + rewrite lookup_insert_eq. by eexists.
Qed.

(** X1. Loading a file that holds a dictionary whose instrument records
    are dictionaries merges it with the default schema: every configured
    instrument comes back with its own fields kept and the missing ones
    filled from the defaults, [global_last_msg] keeps its value or becomes
    [None], every other key is returned untouched, and the result has the
    full schema. *)
Theorem load_state_merge (d : gmap string file) (s : gmap string value) :
  d !! STATE_FILE = Some (Whole (VDict s)) →
  (∀ k v, k ∈ ASSETS → s !! k = Some v → ∃ r, v = VDict r) →
  (∀ k, k ∈ ASSETS →
     load_state d !! k = Some (VDict (record_of s k ∪ default_record)))
  ∧ load_state d !! "global_last_msg" = Some (default VNone (s !! "global_last_msg"))
  ∧ (∀ k, k ∉ ASSETS → k ≠ "global_last_msg" → load_state d !! k = s !! k)
  ∧ well_formed (load_state d).
Proof. apply load_state_merge_core. Qed.

(** Keys only ever get added by the fill loop. *)
Lemma fill_field_keys (k : string) (s : gmap string value) (fv : string * value)
    (s1 : value) :
  fill_field k (VDict s) fv = Ok s1 →
  ∃ s', s1 = VDict s' ∧ ∀ k', is_Some (s !! k') → is_Some (s' !! k').
Proof.
  unfold fill_field. cbn [py_getitem].
  destruct (s !! k) as [r|] eqn:Hr; cbn [obind]; [|done].
  destruct (py_in fv.1 r) as [[]|]; cbn [obind]; [| |done].
  - intros [= <-]. eauto.
  - destruct (py_setitem r fv.1 fv.2) as [r'|]; cbn [obind py_setitem]; [|done].
    intros [= <-]. eexists. split; [done|]. intros k' Hk'.
    destruct (decide (k = k')) as [<-|]; [rewrite lookup_insert_eq|rewrite lookup_insert_ne];
      eauto.
Qed.

Lemma fill_fields_keys (k : string) (l : list (string * value))
    (s : gmap string value) (s1 : value) :
  ofold (fill_field k) (VDict s) l = Ok s1 →
  ∃ s', s1 = VDict s' ∧ ∀ k', is_Some (s !! k') → is_Some (s' !! k').
Proof.
  revert s. induction l as [|fv l IH]; intros s; cbn [ofold].
  - intros [= <-]. eauto.
  - destruct (fill_field k (VDict s) fv) as [s2|] eqn:Hf; cbn [obind]; [|done].
    apply fill_field_keys in Hf as (s2' & -> & H2).
    intros (s' & -> & H3)%IH. eauto.
Qed.

Lemma fill_symbol_keys (k : string) (s : gmap string value) (s1 : value) :
  fill_symbol (VDict s) k = Ok s1 →
  ∃ s', s1 = VDict s' ∧ is_Some (s' !! k)
        ∧ ∀ k', is_Some (s !! k') → is_Some (s' !! k').
Proof.
  unfold fill_symbol. cbn [py_in obind]. case_bool_decide as Hk; cbn [negb].
  - intros (s' & -> & H)%fill_fields_keys. eauto.
  - cbn [py_setitem]. intros [= <-]. eexists. split; [done|].
    split; [rewrite lookup_insert_eq; eauto|].
    intros k' Hk'. destruct (decide (k = k')) as [<-|]; [done|].
    by rewrite lookup_insert_ne.
Qed.

Lemma fill_symbols_keys (l : list string) (s : gmap string value) (s1 : value) :
  ofold fill_symbol (VDict s) l = Ok s1 →
  ∃ s', s1 = VDict s' ∧ (∀ k, k ∈ l → is_Some (s' !! k))
        ∧ ∀ k', is_Some (s !! k') → is_Some (s' !! k').
Proof.
  revert s. induction l as [|k l IH]; intros s; cbn [ofold].
  - intros [= <-]. eexists. split_and!; [done| |done].
    intros k Hk. by apply elem_of_nil in Hk.
  - destruct (fill_symbol (VDict s) k) as [s2|] eqn:Hf; cbn [obind]; [|done].
    apply fill_symbol_keys in Hf as (s2' & -> & Hk & H2).
    intros (s' & -> & Hin & H3)%IH. eexists. split_and!; [done| |by eauto].
    intros k' [->|Hk']%elem_of_cons; eauto.
Qed.

(** X2. Whatever is on disk, the snapshot [load_state] returns has an
    entry for every configured instrument, so [state[symbol]] in the
    cycle never fails for want of a key. *)
Theorem load_state_has_assets (d : gmap string file) (k : string) :
  k ∈ ASSETS → is_Some (load_state d !! k).
Proof.
  intros Hk.
  assert (is_Some (default_state !! k)) as Hdef by (rewrite default_state_lookup; eauto).
  unfold load_state. destruct (d !! STATE_FILE) as [f|]; [|done].
  destruct (json_load f) as [v|]; cbn [obind]; [|done].
  destruct (fill_defaults v) as [s1|] eqn:Hfill; cbn [obind]; [|done].
  destruct (fill_defaults_dict _ _ Hfill) as [s' ->].
  assert (∃ s0, v = VDict s0) as [s0 ->].
  { unfold fill_defaults in Hfill. change ASSETS with ("BTC-USD" :: tail ASSETS) in Hfill.
    cbn [ofold] in Hfill.
    destruct (fill_symbol v "BTC-USD") eqn:H1; [|done]. by eapply fill_symbol_dict. }
  apply fill_symbols_keys in Hfill as (s'' & [= <-] & Hin & _).
  unfold fill_global. cbn [py_in obind]. case_bool_decide; cbn [negb py_setitem].
  - by apply Hin.
  - rewrite lookup_insert_ne; [by apply Hin|]. intros <-. by apply global_not_asset.
Qed.

Lemma load_state_not_object_core (d : gmap string file) (v : value) :
  d !! STATE_FILE = Some (Whole v) →
  (∀ s, v ≠ VDict s) →
  load_state d = default_state.
Proof.
  intros Hd Hv. unfold load_state. rewrite Hd. cbn [json_load obind].
  destruct (fill_defaults v) as [s1|] eqn:Hfill; cbn [obind]; [|done].
  exfalso. unfold fill_defaults in Hfill.
  change ASSETS with ("BTC-USD" :: tail ASSETS) in Hfill. cbn [ofold] in Hfill.
  destruct (fill_symbol v "BTC-USD") eqn:H1; [|done].
  destruct (fill_symbol_dict _ _ _ H1) as [s ->]. by apply (Hv s).
Qed.

(** X3. A state file that parses to anything but a JSON object (a list, a
    string, a number, a boolean, null) is handled like a corrupt one: the
    fill loop raises on it and [load_state] returns the defaults. *)
Theorem load_state_not_object (d : gmap string file) (v : value) :
  d !! STATE_FILE = Some (Whole v) →
  (∀ s, v ≠ VDict s) →
  load_state d = default_state.
Proof. apply load_state_not_object_core. Qed.

Section StoreMore.

Variable chunks : value → nat.

Lemma save_ops_disk (s : gmap string value) (d : gmap string file) :
  run_ops chunks (save_ops chunks s) d
  = <[STATE_FILE := Whole (VDict s)]> (delete tmp_file d).
Proof.
  unfold save_ops, run_ops. cbn [foldl]. rewrite foldl_app.
  pose proof (run_appends chunks (VDict s) (S (chunks (VDict s))) 0
                (<[tmp_file := Empty]> d)) as Hrun.
  unfold run_ops in Hrun. cbn [apply_op]. rewrite Hrun; [|lia|by rewrite lookup_insert_eq].
  cbn [foldl apply_op Nat.add]. rewrite lookup_insert_eq, !insert_insert_eq.
  unfold stage. rewrite Nat.eqb_refl. by rewrite delete_insert_eq.
Qed.

Lemma save_prefix_others (s : gmap string value) (k : nat) (d : gmap string file)
    (p : string) :
  p ≠ STATE_FILE → p ≠ tmp_file →
  run_ops chunks (take k (save_ops chunks s)) d !! p = d !! p.
Proof.
  intros Hp Hpt.
  assert (Forall (λ o, o = Create tmp_file ∨ (∃ doc, o = Append tmp_file doc)
                       ∨ o = Replace tmp_file STATE_FILE) (take k (save_ops chunks s)))
    as Hops.
  { apply Forall_take. unfold save_ops. constructor; [by left|].
    apply Forall_app. split.
    - apply Forall_forall. intros o [-> _]%elem_of_replicate. right; left. eauto.
    - constructor; [by right; right|constructor]. }
  revert d. induction Hops as [|o ops Ho _ IH]; intros d; [done|].
  unfold run_ops in *. cbn [foldl]. rewrite IH.
  destruct Ho as [->|[[doc ->]| ->]]; cbn [apply_op].
  - by rewrite lookup_insert_ne.
  - destruct (d !! tmp_file) as [[]|]; rewrite ?lookup_insert_ne; done.
  - destruct (d !! tmp_file); [|done].
    rewrite lookup_insert_ne by done. by rewrite lookup_delete_ne.
Qed.

(** X4. A completed [save_state] leaves the new document under
    [state.json], removes its temporary file and changes no other file;
    cut short at any point, it still changes no file other than those
    two. *)
Theorem save_state_footprint (s : gmap string value) (w : world) :
  disk (save_state chunks s w).2
  = <[STATE_FILE := Whole (VDict s)]> (delete tmp_file (disk w))
  ∧ ∀ k p, p ≠ STATE_FILE → p ≠ tmp_file →
      save_interrupted chunks k s (disk w) !! p = disk w !! p.
Proof.
  split; [apply save_ops_disk|].
  intros k p Hp Hpt. by apply save_prefix_others.
Qed.

End StoreMore.

(** ** More of the dedup gate *)

Lemma suppresses_other_text (now_ts : Z) (v : value) (text : string) (window : Z) :
  text_of v ≠ Some (VStr text) → suppresses now_ts v text window = Ok false.
Proof.
  intros Ht. unfold suppresses. destruct v as [| | | | | |d]; try done.
  unfold text_of in Ht.
  assert (is_str text (default VNone (d !! "text")) = false) as ->.
  { destruct (d !! "text") as [[]|]; try done. cbn.
    destruct (String.eqb_spec s text) as [->|]; done. }
  by rewrite andb_false_r.
Qed.

(** X5. A text that differs from the text of both dedup records is always
    let through, whatever the time and whatever the records' timestamps
    hold: the timestamps are only looked at when the texts agree. *)
Theorem should_send_other_text (now_ts : Z) (s : gmap string value)
    (symbol text : string) :
  record_ok s symbol →
  text_of (symbol_last s symbol) ≠ Some (VStr text) →
  text_of (global_last s) ≠ Some (VStr text) →
  should_send_at now_ts s symbol text = Ok true.
Proof.
  intros Hrec Hs Hg. unfold should_send_at.
  assert (py_get (default (VDict ∅) (s !! symbol)) "last_msg" VNone
          = Ok (symbol_last s symbol)) as ->.
  { unfold symbol_last, record_of. by destruct Hrec as [->|[r ->]]. }
  cbn [obind]. fold (global_last s).
  by rewrite !suppresses_other_text.
Qed.

(** X6. When the instrument's last record carries the very text to send
    but a timestamp that is no number (null, a string, a list, an
    object), [should_send] raises instead of answering. *)
Theorem should_send_bad_timestamp (now_ts : Z) (s r m : gmap string value)
    (symbol text : string) (ts : value) :
  s !! symbol = Some (VDict r) →
  r !! "last_msg" = Some (VDict m) →
  m !! "text" = Some (VStr text) →
  m !! "ts" = Some ts →
  as_num ts = Raise →
  should_send_at now_ts s symbol text = Raise.
Proof.
  intros Hs Hr Ht Hts Hnum. unfold should_send_at.
  rewrite Hs. cbn [default from_option id py_get]. rewrite Hr. cbn [default from_option id obind].
  unfold suppresses at 1.
  assert (truthy (VDict m) = true) as ->.
  { cbn. destruct (Nat.eqb_spec (size m) 0) as [Hz|]; [|done].
    apply map_size_empty_iff in Hz. by rewrite Hz in Ht. }
  rewrite Ht, Hts. cbn [default from_option id is_str]. rewrite String.eqb_refl. cbn [andb].
  unfold py_sub. cbn [as_num obind]. by rewrite Hnum.
Qed.

(** X7. A record for the same text that has no timestamp at all counts as
    sent at time 0: it suppresses only while the clock reads less than
    60. *)
Theorem should_send_missing_timestamp (now_ts : Z) (s r m : gmap string value)
    (symbol text : string) :
  s !! symbol = Some (VDict r) →
  r !! "last_msg" = Some (VDict m) →
  m !! "text" = Some (VStr text) →
  m !! "ts" = None →
  text_of (global_last s) ≠ Some (VStr text) →
  should_send_at now_ts s symbol text = Ok (negb (now_ts <? 60)).
Proof.
  intros Hs Hr Ht Hts Hg. unfold should_send_at.
  rewrite Hs. cbn [default from_option id py_get]. rewrite Hr. cbn [default from_option id obind].
  unfold suppresses at 1.
  assert (truthy (VDict m) = true) as ->.
  { cbn. destruct (Nat.eqb_spec (size m) 0) as [Hz|]; [|done].
    apply map_size_empty_iff in Hz. by rewrite Hz in Ht. }
  rewrite Ht, Hts. cbn [default from_option id is_str]. rewrite String.eqb_refl. cbn [andb].
  unfold py_sub. cbn [as_num obind num_sub num_ltb]. rewrite Z.sub_0_r.
  unfold MIN_TELEGRAM_INTERVAL.
  destruct (now_ts <? 60); cbn [negb]; [done|].
  fold (global_last s). by rewrite suppresses_other_text.
Qed.

Section SendMore.

Variable clock : nat → Z.
Variable credentials : bool.
Variable chunks : value → nat.

Local Abbreviation send_telegram := (send_telegram clock credentials chunks).

Lemma send_telegram_cases (msg symbol : string) (w : world) :
  symbol ≠ "global_last_msg" →
  ∃ o w', send_telegram msg (Some symbol) w = (o, w')
    ∧ ((state w' = state w ∧ disk w' = disk w ∧ trace w' = trace w)
       ∨ (o = Ok ()
          ∧ trace w' = (trace w ++ [Saved (state w'); Posted msg])%list
          ∧ disk w' !! STATE_FILE = Some (Whole (VDict (state w')))
          ∧ symbol_last (state w') symbol = sent_record msg (clock (S (ticks w)))
          ∧ global_last (state w') = sent_record msg (clock (S (ticks w)))
          ∧ ticks w' = S (S (ticks w)))).
Proof.
  intros Hne. unfold send_telegram. destruct credentials; cbn [negb].
  2:{ eexists _, _. split; [reflexivity|]. by left. }
  unfold bind, should_send, time_time, get_state, lift. simpl.
  destruct (should_send_at (clock (ticks w)) (state w) symbol msg) as [[]|] eqn:Hs;
    simpl.
  2,3: eexists _, _; (split; [reflexivity|]); by left.
  unfold mark_sent, bind, time_time, get_state, lift, modify, save_state, post.
  simpl.
  destruct (mark_sent_at (clock (S (ticks w))) (state w) symbol msg) as [s'|] eqn:Hm;
    simpl.
  2:{ eexists _, _. split; [reflexivity|]. by left. }
  eexists _, _. split; [reflexivity|]. right.
  cbn [state disk trace ticks emit with_disk with_state tick].
  assert (record_ok (state w) symbol) as Hrec.
  { unfold mark_sent_at in Hm. destruct (state w !! symbol) as [v|] eqn:Hv; [|by left].
    right. cbn [py_getitem] in Hm. rewrite Hv in Hm. destruct v; try done. eauto. }
  rewrite mark_sent_at_ok in Hm by done. injection Hm as <-.
  split_and!; try done.
  - by rewrite <- app_assoc.
  - apply save_ops_canonical.
  - unfold symbol_last, record_of.
    rewrite lookup_insert_ne, lookup_insert_eq by done. by rewrite lookup_insert_eq.
  - unfold global_last. by rewrite lookup_insert_eq.
Qed.

(** X8. [send_telegram] for an instrument either leaves the snapshot, the
    files and the trace exactly as they were, or it first records the
    message under the instrument and globally, then saves that snapshot
    to [state.json], and only then posts the message. *)
Theorem send_telegram_records_first (msg symbol : string) (w : world) :
  symbol ≠ "global_last_msg" →
  ∃ o w', send_telegram msg (Some symbol) w = (o, w')
    ∧ ((state w' = state w ∧ disk w' = disk w ∧ trace w' = trace w)
       ∨ (o = Ok ()
          ∧ trace w' = (trace w ++ [Saved (state w'); Posted msg])%list
          ∧ disk w' !! STATE_FILE = Some (Whole (VDict (state w')))
          ∧ symbol_last (state w') symbol = sent_record msg (clock (S (ticks w)))
          ∧ global_last (state w') = sent_record msg (clock (S (ticks w)))
          ∧ ticks w' = S (S (ticks w)))).
Proof. apply send_telegram_cases. Qed.

(** X9. Sending the same message for the same instrument twice in a row
    posts it once: when the first call posted and the clock has advanced
    by less than 60 seconds, the second call posts nothing and changes
    neither the snapshot nor the files. *)
Theorem send_telegram_twice (msg symbol : string) (w : world) :
  symbol ≠ "global_last_msg" →
  trace (send_telegram msg (Some symbol) w).2 ≠ trace w →
  clock (S (S (ticks w))) - clock (S (ticks w)) < 60 →
  send_telegram msg (Some symbol) (send_telegram msg (Some symbol) w).2
  = (Ok (), tick (send_telegram msg (Some symbol) w).2).
Proof.
  intros Hne Hposted Hclock.
  destruct (send_telegram_cases msg symbol w Hne)
    as (o & w1 & Hev & [(_ & _ & Hsame)|(-> & Htr & _ & Hsym & Hglob & Hticks)]).
  { rewrite Hev in Hposted. done. }
  rewrite Hev in *. cbn [snd] in *.
  unfold send_telegram in *. destruct credentials; cbn [negb] in *.
  2:{ injection Hev as <-. rewrite <- app_nil_r in Htr at 1.
      by apply app_inv_head in Htr. }
  unfold bind, should_send, time_time, get_state, lift. simpl.
  destruct (should_send_at_spec (clock (ticks w1)) (state w1) symbol msg)
    as (b & -> & Hb).
  - unfold record_ok. unfold symbol_last, record_of in Hsym.
    destruct (state w1 !! symbol) as [v|]; [|by left]. right.
    destruct v as [| | | | | |r0]; [..|by exists r0];
      exfalso; rewrite lookup_empty in Hsym; discriminate.
  - rewrite Hsym. right. exists msg, (clock (S (ticks w))). apply recorded_sent_record.
  - rewrite Hglob. right. exists msg, (clock (S (ticks w))). apply recorded_sent_record.
  - assert (b = false) as ->; [|done].
    apply Hb. left. exists (clock (S (ticks w))). rewrite Hsym.
    split; [apply recorded_sent_record|]. rewrite Hticks. unfold MIN_TELEGRAM_INTERVAL. lia.
Qed.

End SendMore.

(** ** A frame rule for the evaluation of an instrument *)

Section Frame.

Variable clock : nat → Z.
Variable credentials : bool.
Variable download : string → string → list spec_float.
Variable ewm_mean : Z → list spec_float → list spec_float.
Variable render : notice → string.
Variable chunks : value → nat.

Local Abbreviation send_telegram := (send_telegram clock credentials chunks).
Local Abbreviation evaluate := (evaluate clock credentials render chunks).
Local Abbreviation process :=
  (process clock credentials download ewm_mean render chunks).
Local Abbreviation check_signals :=
  (check_signals clock credentials download ewm_mean render chunks).

Section Rule.

Variable R : world → world → Prop.
Context `{!PreOrder R}.

Lemma preserves_ret {A} (a : A) : preserves R (ret a).
Proof. intros w. reflexivity. Qed.

Lemma preserves_lift {A} (o : outcome A) : preserves R (lift o).
Proof. intros w. reflexivity. Qed.

Lemma preserves_get_state : preserves R get_state.
Proof. intros w. reflexivity. Qed.

Lemma preserves_bind {A B} (c : M A) (k : A → M B) :
  preserves R c → (∀ a, preserves R (k a)) → preserves R (bind c k).
Proof.
  intros Hc Hk w. unfold bind. specialize (Hc w).
  destruct (c w) as [[a|] w1]; cbn [snd] in *; [|done].
  etrans; [exact Hc|apply Hk].
Qed.

Lemma preserves_try_except (c : M unit) : preserves R c → preserves R (try_except c).
Proof. intros Hc w. apply Hc. Qed.

Lemma preserves_for_each {A} (body : A → M unit) (l : list A) :
  (∀ a, a ∈ l → preserves R (body a)) → preserves R (for_each body l).
Proof.
  induction l as [|a l IH]; intros Hbody; cbn [for_each].
  - apply preserves_ret.
  - apply preserves_bind; [apply Hbody; left|].
    intros _. apply IH. intros a' Ha'. apply Hbody. by right.
Qed.

(** What holds of the three position fields being assigned and of the
    notification being sent holds of the whole evaluation. *)
Lemma preserves_evaluate (symbol : string) (b : bars) :
  (∀ field v, field ≠ "last_msg" → preserves R (set_field symbol field v)) →
  (∀ msg, preserves R (send_telegram msg (Some symbol))) →
  preserves R (evaluate symbol b).
Proof.
  intros Hset Hsend.
  assert (preserves R (close_position symbol)) as Hclose.
  { unfold close_position.
    repeat (apply preserves_bind; [by apply Hset|intros]). by apply Hset. }
  unfold evaluate.
  repeat first
    [ apply preserves_ret | apply preserves_lift | apply preserves_get_state
    | apply Hclose | apply Hsend | (apply Hset; done)
    | apply preserves_bind; [|intros]
    | match goal with
      | |- preserves R (if ?c then _ else _) => destruct c
      end ].
Qed.

Lemma preserves_process (symbol : string) :
  (∀ b, preserves R (evaluate symbol b)) → preserves R (process symbol).
Proof.
  intros Hev. unfold process. apply preserves_try_except.
  apply preserves_bind; [apply preserves_lift|]. intros [b|]; [|apply preserves_ret].
  apply preserves_bind; [apply Hev|]. intros. apply preserves_ret.
Qed.

End Rule.

(** The snapshot after an assignment to a field, and after a send. *)
Lemma set_field_result (symbol field : string) (v : value) (w : world) :
  untouched_outside w (set_field symbol field v w).2
  ∧ (state (set_field symbol field v w).2 = state w
     ∨ ∃ r, state w !! symbol = Some (VDict r)
            ∧ state (set_field symbol field v w).2
              = <[symbol := VDict (<[field := v]> r)]> (state w)).
Proof.
  unfold set_field, bind, get_state, lift, modify. cbn [fst snd].
  destruct (state w !! symbol) as [x|] eqn:Hx; cbn [py_getitem].
  2:{ rewrite Hx. by split; [|left]. }
  rewrite Hx. destruct x; cbn [py_setitem snd]; try (by split; [|left]).
  split; [done|]. right. by eexists.
Qed.

Lemma send_telegram_result (msg symbol : string) (w : world) :
  state (send_telegram msg (Some symbol) w).2 = state w
  ∨ ∃ ts, state (send_telegram msg (Some symbol) w).2
          = <["global_last_msg" := sent_record msg ts]>
              (<[symbol := VDict (<["last_msg" := sent_record msg ts]>
                                    (record_of (state w) symbol))]> (state w)).
Proof.
  unfold send_telegram. destruct credentials; cbn [negb]; [|by left].
  unfold bind, should_send, time_time, get_state, lift. simpl.
  destruct (should_send_at (clock (ticks w)) (state w) symbol msg) as [[]|] eqn:Hs;
    simpl; [|by left..].
  unfold mark_sent, bind, time_time, get_state, lift, modify, save_state, post. simpl.
  destruct (mark_sent_at (clock (S (ticks w))) (state w) symbol msg) as [s'|] eqn:Hm;
    simpl; [|by left].
  assert (record_ok (state w) symbol) as Hrec.
  { unfold mark_sent_at in Hm. destruct (state w !! symbol) as [v|] eqn:Hv; [|by left].
    right. cbn [py_getitem] in Hm. rewrite Hv in Hm. destruct v; try done. eauto. }
  rewrite mark_sent_at_ok in Hm by done. injection Hm as <-. right. by eexists.
Qed.

(** *** Other instruments are left alone *)

Lemma only_touches_preorder (symbol : string) : PreOrder (only_touches symbol).
Proof.
  split.
  - by intros w k _ _.
  - intros w1 w2 w3 H12 H23 k Hk Hg. by rewrite H23, H12.
Qed.
#[local] Existing Instance only_touches_preorder.

Lemma only_touches_set_field (symbol field : string) (v : value) :
  preserves (only_touches symbol) (set_field symbol field v).
Proof.
  intros w k Hk Hg.
  destruct (set_field_result symbol field v w) as [_ [->|(r & _ & ->)]]; [done|].
  by rewrite lookup_insert_ne.
Qed.

Lemma only_touches_send (msg symbol : string) :
  preserves (only_touches symbol) (send_telegram msg (Some symbol)).
Proof.
  intros w k Hk Hg.
  destruct (send_telegram_result msg symbol w) as [->|[ts ->]]; [done|].
  by rewrite !lookup_insert_ne.
Qed.

(** X10. Processing one instrument changes nothing in the snapshot but that
    instrument's record and the global dedup record: every other key keeps
    its value exactly, whatever the bars and whether or not the processing
    raised. *)
Theorem process_only_touches (symbol : string) (w : world) :
  ∀ k, k ≠ symbol → k ≠ "global_last_msg" →
    state (process symbol w).2 !! k = state w !! k.
Proof.
  apply (preserves_process (only_touches symbol)). intros b.
  apply preserves_evaluate; [apply _| |].
  - intros. apply only_touches_set_field.
  - intros. apply only_touches_send.
Qed.

(** *** Records only grow *)

Lemma grows_preorder : PreOrder grows.
Proof.
  split.
  - intros w. split; [|done]. intros k r _ Hr. eauto.
  - intros w1 w2 w3 [H12 G12] [H23 G23]. split; [|by auto].
    intros k r Hk Hr. destruct (H12 k r Hk Hr) as (r2 & Hr2 & Hf2).
    destruct (H23 k r2 Hk Hr2) as (r3 & Hr3 & Hf3). eauto.
Qed.
#[local] Existing Instance grows_preorder.

Lemma grows_state (w w' : world) (k0 : string) (g : gmap string value → gmap string value) :
  (∀ r f, is_Some (r !! f) → is_Some (g r !! f)) →
  state w' = state w
  ∨ (∃ r, state w !! k0 = Some (VDict r) ∧ state w' = <[k0 := VDict (g r)]> (state w)) →
  grows w w'.
Proof.
  intros Hg [Heq|(r0 & Hr0 & Heq)]; unfold grows; rewrite Heq.
  { split; [|done]. intros k r _ Hr. eauto. }
  split.
  - intros k r Hk Hr. destruct (decide (k0 = k)) as [<-|Hne].
    + rewrite lookup_insert_eq. simplify_eq. eauto.
    + rewrite lookup_insert_ne by done. eauto.
  - intros Hglob. destruct (decide (k0 = "global_last_msg")) as [->|Hne].
    + rewrite lookup_insert_eq. eauto.
    + by rewrite lookup_insert_ne.
Qed.

Lemma grows_set_field (symbol field : string) (v : value) :
  preserves grows (set_field symbol field v).
Proof.
  intros w. apply (grows_state _ _ symbol (insert field v)).
  - intros r f Hf. destruct (decide (field = f)) as [<-|];
      [rewrite lookup_insert_eq|rewrite lookup_insert_ne]; eauto.
  - apply set_field_result.
Qed.

Lemma grows_send (msg symbol : string) :
  symbol ≠ "global_last_msg" →
  preserves grows (send_telegram msg (Some symbol)).
Proof.
  intros Hne w.
  destruct (send_telegram_result msg symbol w) as [Heq|[ts Heq]].
  - apply (grows_state _ _ symbol id); [done|by left].
  - unfold grows. rewrite Heq. split.
    + intros k r Hk Hr. rewrite lookup_insert_ne by done.
      destruct (decide (symbol = k)) as [<-|Hnek].
      * rewrite lookup_insert_eq. eexists. split; [done|].
        unfold record_of. rewrite Hr. intros f Hf.
        destruct (decide ("last_msg" = f)) as [<-|];
          [rewrite lookup_insert_eq|rewrite lookup_insert_ne]; eauto.
      * rewrite lookup_insert_ne by done. eauto.
    + intros _. rewrite lookup_insert_eq. eauto.
Qed.

Lemma grows_well_formed (w w' : world) :
  grows w w' → well_formed (state w) → well_formed (state w').
Proof.
  intros [Hrec Hglob] [Hwf Hg]. split; [|by auto].
  intros k Hk. destruct (Hwf k Hk) as (r & Hr & Hf).
  destruct (Hrec k r) as (r' & Hr' & Hf'); [|done|].
  { intros ->. by apply global_not_asset. }
  exists r'. split; [done|]. intros fv Hfv. by apply Hf', Hf.
Qed.

Lemma check_signals_unfold (w : world) :
  let w0 := with_state (load_state (disk w)) w in
  let w1 := (for_each process ASSETS w0).2 in
  check_signals w
  = (Ok (), emit (Saved (state w1))
              (with_disk (run_ops chunks (save_ops chunks (state w1)) (disk w1)) w1)).
Proof.
  intros w0 w1.
  unfold check_signals, bind, modify, get_state, save_state. fold w0.
  pose proof (for_each_process_ok clock credentials download ewm_mean render chunks
                ASSETS w0) as Hok.
  subst w1. destruct (for_each _ ASSETS w0) as [o w1]. cbn [fst snd] in *. by subst o.
Qed.

Lemma check_signals_persists_core (w : world) :
  disk (check_signals w).2 !! STATE_FILE
  = Some (Whole (VDict (state (check_signals w).2))).
Proof.
  rewrite check_signals_unfold. cbn [snd disk state emit with_disk].
  apply save_ops_canonical.
Qed.

(** X11. At the end of a cycle [state.json] holds exactly the snapshot the
    cycle ended with. *)
Theorem check_signals_persists (w : world) :
  disk (check_signals w).2 !! STATE_FILE
  = Some (Whole (VDict (state (check_signals w).2))).
Proof. apply check_signals_persists_core. Qed.

(** X12. Nothing is lost between cycles: when the snapshot a cycle starts
    from is well formed (every instrument with every field, and a
    [global_last_msg] entry, as [load_state] returns it from a file that
    parsed), the snapshot the next [load_state] returns is exactly the one
    the cycle ended with, positions and dedup records alike. *)
Theorem cycle_carries_over (w : world) :
  well_formed (load_state (disk w)) →
  load_state (disk (check_signals w).2) = state (check_signals w).2
  ∧ well_formed (state (check_signals w).2).
Proof.
  intros Hwf.
  assert (well_formed (state (check_signals w).2)) as Hwf'.
  { rewrite check_signals_unfold. cbn [snd state emit with_disk].
    apply (grows_well_formed (with_state (load_state (disk w)) w)); [|exact Hwf].
    apply (preserves_for_each grows process ASSETS). intros k Hk.
    apply preserves_process; [apply _|]. intros b.
    apply preserves_evaluate; [apply _| |].
    - intros. apply grows_set_field.
    - intros. apply grows_send. intros ->. by apply global_not_asset. }
  split; [|done].
  unfold load_state. rewrite check_signals_persists_core. cbn [json_load obind].
  destruct (fill_defaults_well_formed _ Hwf') as [-> Hg]. cbn [obind]. by rewrite Hg.
Qed.

End Frame.

(** X13. Without Telegram credentials a cycle still runs the state machine
    but posts nothing, never reads the clock and saves exactly once, at
    its end. *)
Theorem check_signals_without_credentials (clock : nat → Z)
    (download : string → string → list spec_float)
    (ewm_mean : Z → list spec_float → list spec_float)
    (render : notice → string) (chunks : value → nat) (w : world) :
  let w' := (check_signals clock false download ewm_mean render chunks w).2 in
  trace w' = (trace w ++ [Saved (state w')])%list ∧ ticks w' = ticks w.
Proof.
  assert (PreOrder untouched_outside) as Hpre.
  { split.
    - by intros w0.
    - intros w1 w2 w3 (? & ? & ?) (? & ? & ?). split_and!; congruence. }
  cbn zeta. rewrite check_signals_unfold. cbn [snd state trace ticks emit with_disk].
  set (w0 := with_state (load_state (disk w)) w).
  assert (untouched_outside w0
            (for_each (process clock false download ewm_mean render chunks) ASSETS w0).2)
    as (Htr & Hti & _).
  { apply (preserves_for_each untouched_outside). intros k Hk.
    apply preserves_process; [done|]. intros b.
    apply preserves_evaluate; [done| |].
    - intros field v _ w1. apply set_field_result.
    - intros msg w1. by unfold send_telegram. }
  by rewrite Htr, Hti.
Qed.

(** ** Snapshots the bot writes stay well typed *)

Lemma healthy_record_ext (r r' : gmap string value) :
  (∀ f, f ≠ "last_msg" → r' !! f = r !! f) → healthy_record r → healthy_record r'.
Proof.
  intros Hf. unfold healthy_record. by rewrite !Hf.
Qed.

Lemma healthy_positions (s s' : gmap string value) :
  same_positions s s' →
  (∀ k, k ∈ ASSETS → ∃ r, s !! k = Some (VDict r) ∧ healthy_record r) →
  (∀ k, k ∈ ASSETS → ∃ r, s' !! k = Some (VDict r) ∧ healthy_record r).
Proof.
  intros Hsame Hs k Hk. destruct (Hs k Hk) as (r & Hr & Hh).
  destruct (Hsame k r) as (r' & Hr' & Hf); [|done|].
  { intros ->. by apply global_not_asset. }
  exists r'. split; [done|]. by apply (healthy_record_ext r).
Qed.

Lemma healthy_update (s : gmap string value) (symbol : string) (r' : gmap string value) :
  healthy_record r' →
  (∀ k, k ∈ ASSETS → ∃ r, s !! k = Some (VDict r) ∧ healthy_record r) →
  (∀ k, k ∈ ASSETS →
     ∃ r, <[symbol := VDict r']> s !! k = Some (VDict r) ∧ healthy_record r).
Proof.
  intros Hr' Hs k Hk. destruct (decide (symbol = k)) as [<-|Hne].
  - rewrite lookup_insert_eq. eauto.
  - rewrite lookup_insert_ne by done. by apply Hs.
Qed.

Lemma keeps_slots_preorder : PreOrder keeps_slots.
Proof.
  split.
  - intros w H. exact H.
  - intros w1 w2 w3 H12 H23 H1. by apply H23, H12.
Qed.
#[local] Existing Instance keeps_slots_preorder.

Section Healthy.

Variable clock : nat → Z.
Variable credentials : bool.
Variable download : string → string → list spec_float.
Variable ewm_mean : Z → list spec_float → list spec_float.
Variable render : notice → string.
Variable chunks : value → nat.

Local Abbreviation send_telegram := (send_telegram clock credentials chunks).
Local Abbreviation evaluate := (evaluate clock credentials render chunks).
Local Abbreviation process :=
  (process clock credentials download ewm_mean render chunks).
Local Abbreviation check_signals :=
  (check_signals clock credentials download ewm_mean render chunks).

Lemma keeps_slots_set_field (symbol field : string) (v : value) :
  symbol ≠ "global_last_msg" → field ≠ "last_msg" →
  preserves keeps_slots (set_field symbol field v).
Proof.
  intros Hne Hf w [Hsym Hglob].
  destruct (set_field_result symbol field v w) as [_ [->|(r & Hr & ->)]]; [done|].
  split.
  - intros k Hk. specialize (Hsym k Hk). unfold symbol_last, record_of in *.
    destruct (decide (symbol = k)) as [<-|Hnek].
    + rewrite lookup_insert_eq. rewrite Hr in Hsym. by rewrite lookup_insert_ne.
    + by rewrite lookup_insert_ne.
  - unfold global_last in *. by rewrite lookup_insert_ne.
Qed.

Lemma keeps_slots_send (msg symbol : string) :
  preserves keeps_slots (send_telegram msg (Some symbol)).
Proof.
  intros w [Hsym Hglob].
  destruct (send_telegram_result clock credentials chunks msg symbol w)
    as [->|[ts ->]]; [done|].
  assert (slot_ok (sent_record msg ts)) as Hm.
  { right. eexists _, _. apply recorded_sent_record. }
  split.
  - intros k Hk. specialize (Hsym k Hk). unfold symbol_last, record_of in *.
    rewrite lookup_insert_ne by done.
    destruct (decide (symbol = k)) as [<-|Hnek].
    + rewrite lookup_insert_eq. by rewrite lookup_insert_eq.
    + by rewrite lookup_insert_ne.
  - unfold global_last. by rewrite lookup_insert_eq.
Qed.

Lemma keeps_slots_evaluate (symbol : string) (b : bars) :
  symbol ≠ "global_last_msg" → preserves keeps_slots (evaluate symbol b).
Proof.
  intros Hne. apply preserves_evaluate; [apply _| |].
  - intros. by apply keeps_slots_set_field.
  - intros. apply keeps_slots_send.
Qed.

Lemma evaluate_keeps_healthy_core (symbol : string) (b : bars) (w : world) :
  symbol ∈ ASSETS →
  healthy (state w) →
  is_fzero (price b) = false →
  ∃ t w', evaluate symbol b w = (Ok t, w') ∧ healthy (state w').
Proof.
  intros Hsym [Hpos Hslots] Hprice.
  assert (symbol ≠ "global_last_msg") as Hne.
  { intros ->. by apply global_not_asset. }
  assert (slots_ok (state w) symbol) as Hso.
  { destruct Hslots as [Hs Hg]. split; [by apply Hs|done]. }
  pose proof (keeps_slots_evaluate symbol b Hne w Hslots) as Hslots'.
  destruct (Hpos symbol Hsym) as (r & Hr & Hh).
  assert (∀ o w' t (target : gmap string value),
            evaluate symbol b w = (o, w') → o = Ok t →
            healthy_record target →
            same_positions (<[symbol := VDict target]> (state w)) (state w') →
            ∃ t w', evaluate symbol b w = (Ok t, w') ∧ healthy (state w')) as Hdone.
  { intros o w' t target Hev -> Ht Hsame. exists t, w'. split; [done|].
    split; [|by rewrite Hev in Hslots'].
    eapply healthy_positions; [exact Hsame|]. by apply healthy_update. }
  destruct Hh as [(Hip & Hep & Htp)|(Hip & (p & Hep & Hp) & Htp)].
  - destruct (evaluate_flat clock credentials render chunks symbol b w r
                (VBool false) Hr Hip eq_refl) as (o & w' & Hev & Hcase).
    destruct (crossed_up (prev_short b) _ _ _).
    + destruct Hcase as (_ & Hsame & Hok).
      eapply (Hdone o w' Entered); [done|by apply Hok| |exact Hsame].
      right. unfold opened. split_and!; [by simplify_map_eq| |left; by simplify_map_eq].
      exists (price b). split; [by simplify_map_eq|done].
    + destruct Hcase as [-> ->]. exists Stay, w. split; [done|]. by split.
  - assert (∃ L, take_profit_level (VFloat p)
                   (default (VInt TAKE_PROFIT) (r !! "take_profit")) = Ok L) as [L HL].
    { destruct Htp as [-> | ->]; by eexists. }
    destruct (evaluate_open clock credentials render chunks symbol b w r (VBool true)
                (VFloat p) (NFloat p) L Hne Hr Hip eq_refl Hep eq_refl HL)
      as (o & w' & Hev & Hcase).
    assert (healthy_record (closed r)) as Hclosed.
    { left. unfold closed. split_and!; by simplify_map_eq. }
    destruct (fleb L (price b)).
    { destruct Hcase as [[[_ Hsame]|[Ho _]] Hok].
      - by eapply (Hdone o w' TookProfit); [done|apply Hok| |exact Hsame].
      - rewrite (Hok Hso) in Ho. done. }
    destruct (fleb (price b) _).
    { destruct Hcase as [[[_ Hsame]|[Ho _]] Hok].
      - by eapply (Hdone o w' StoppedOut); [done|apply Hok| |exact Hsame].
      - rewrite (Hok Hso Hp) in Ho. done. }
    destruct (crossed_up (prev_ema100 b) _ _ _ && py_ne_int _ _).
    + destruct Hcase as (_ & Hsame & Hok).
      eapply (Hdone o w' Upgraded); [done|by apply Hok| |exact Hsame].
      right. split_and!; [by simplify_map_eq| |right; by simplify_map_eq].
      exists p. split; [by simplify_map_eq|done].
    + destruct Hcase as [-> ->]. exists Stay, w. split; [done|]. by split.
Qed.

(** X14. From a healthy snapshot (every instrument flat at the base
    target or open at a non-zero float entry price, every dedup slot
    [None] or a record with a string text and an integer timestamp), the
    evaluation of a configured instrument on a bar with a non-zero close
    never raises and ends in a healthy snapshot. *)
Theorem evaluate_keeps_healthy (symbol : string) (b : bars) (w : world) :
  symbol ∈ ASSETS →
  healthy (state w) →
  is_fzero (price b) = false →
  ∃ t w', evaluate symbol b w = (Ok t, w') ∧ healthy (state w').
Proof. apply evaluate_keeps_healthy_core. Qed.

Lemma healthy_default : healthy default_state.
Proof.
  split.
  - intros k Hk. exists default_record. split; [by apply default_state_lookup|].
    left. by split_and!.
  - split.
    + intros k _. left. unfold symbol_last, record_of.
      destruct (decide (k ∈ ASSETS)) as [Hk|Hk].
      * by rewrite default_state_lookup.
      * by rewrite default_state_other.
    + by left.
Qed.

Lemma healthy_record_union (r : gmap string value) :
  healthy_record r → healthy_record (r ∪ default_record).
Proof.
  assert (∀ f x, r !! f = Some x → (r ∪ default_record) !! f = Some x) as Hl.
  { intros f x Hx. by apply lookup_union_Some_l. }
  intros [(Hip & Hep & Htp)|(Hip & (p & Hep & Hp) & [Htp|Htp])].
  - left. split_and!; by apply Hl.
  - right. split_and!; [by apply Hl|exists p; split; [by apply Hl|done]|left; by apply Hl].
  - right. split_and!; [by apply Hl|exists p; split; [by apply Hl|done]|right; by apply Hl].
Qed.

(** Loading a healthy snapshot that was saved gives a healthy snapshot. *)
Lemma healthy_load (d : gmap string file) (s : gmap string value) :
  d !! STATE_FILE = Some (Whole (VDict s)) → healthy s → healthy (load_state d).
Proof.
  intros Hd [Hpos [Hsym Hglob]].
  destruct (load_state_merge_core d s Hd) as (Hin & Hg & Hout & _).
  { intros k v Hk Hv. destruct (Hpos k Hk) as (r & Hr & _). simplify_eq. eauto. }
  split; [|split].
  - intros k Hk. eexists. split; [by apply Hin|].
    destruct (Hpos k Hk) as (r & Hr & Hh). unfold record_of. rewrite Hr.
    by apply healthy_record_union.
  - intros k Hk. specialize (Hsym k Hk). unfold symbol_last in *.
    destruct (decide (k ∈ ASSETS)) as [Hka|Hka].
    + unfold record_of at 1. rewrite (Hin k Hka). rewrite lookup_union.
      destruct (record_of s k !! "last_msg") as [x|]; [done|]. by left.
    + unfold record_of in *. by rewrite (Hout k Hka Hk).
  - unfold global_last in *. by rewrite Hg.
Qed.

Lemma keeps_healthy_preorder : PreOrder keeps_healthy.
Proof.
  split.
  - intros w H. exact H.
  - intros w1 w2 w3 H12 H23 H1. by apply H23, H12.
Qed.
#[local] Existing Instance keeps_healthy_preorder.

Lemma check_signals_keeps_healthy_core (w : world) :
  (∀ symbol b, fetch download ewm_mean symbol = Ok (Some b) → is_fzero (price b) = false) →
  healthy (load_state (disk w)) →
  healthy (state (check_signals w).2)
  ∧ healthy (load_state (disk (check_signals w).2)).
Proof.
  intros Hprices Hstart.
  assert (healthy (state (check_signals w).2)) as Hend.
  { rewrite (check_signals_unfold clock credentials download ewm_mean render chunks).
    cbn [snd state emit with_disk].
    apply (preserves_for_each keeps_healthy process ASSETS
             (A := string)); [|exact Hstart].
    intros k Hk w0 Hw0. unfold process, try_except, bind, lift. cbn [fst snd].
    destruct (fetch download ewm_mean k) as [[b|]|] eqn:Hf; cbn [snd]; try done.
    destruct (evaluate_keeps_healthy_core k b w0 Hk Hw0 (Hprices k b Hf))
      as (t & w' & -> & Hh). done. }
  split; [done|].
  eapply healthy_load; [|exact Hend].
  apply (check_signals_persists_core clock credentials download ewm_mean render chunks).
Qed.

(** X15. Health is an invariant of the whole bot.  The default snapshot is
    healthy; and when no bar the downloads deliver closes at zero, a cycle
    that starts from a healthy loaded snapshot ends with a healthy one,
    which the next [load_state] returns healthy again.  Healthy is as in
    [healthy]: positions flat at the base target or open at a non-zero
    float entry price, dedup slots [None] or a record with a string text
    and an integer timestamp. *)
Theorem check_signals_keeps_healthy (w : world) :
  (∀ symbol b, fetch download ewm_mean symbol = Ok (Some b) → is_fzero (price b) = false) →
  healthy (load_state (disk w)) →
  healthy default_state
  ∧ healthy (state (check_signals w).2)
  ∧ healthy (load_state (disk (check_signals w).2)).
Proof.
  intros Hprices Hstart. split; [apply healthy_default|].
  by apply check_signals_keeps_healthy_core.
Qed.

(** X16. A position with no usable entry price is stuck: when [in_position]
    is true and [entry_price] is null or anything but a number, every
    evaluation raises before a message is sent or a field assigned, and
    the world stays as it was. *)
Theorem evaluate_stuck_without_entry (symbol : string) (b : bars) (w : world)
    (r : gmap string value) (ip entry : value) :
  state w !! symbol = Some (VDict r) →
  r !! "in_position" = Some ip →
  truthy ip = true →
  r !! "entry_price" = Some entry →
  as_num entry = Raise →
  evaluate symbol b w = (Raise, w).
Proof.
  intros Hr Hip Htr Hentry He.
  unfold evaluate. rewrite bind_get_state.
  rewrite (py_getitem_dict _ _ _ Hr), bind_lift_ok.
  rewrite (py_getitem_dict _ _ _ Hip), bind_lift_ok, Htr. cbn [negb].
  rewrite (py_getitem_dict _ _ _ Hentry), bind_lift_ok.
  unfold py_get at 1. rewrite bind_lift_ok.
  assert (take_profit_level entry (default (VInt TAKE_PROFIT) (r !! "take_profit")) = Raise)
    as ->; [|done].
  unfold take_profit_level. destruct (py_truediv _ _); cbn [obind]; [|done].
  by rewrite He.
Qed.

(** X26. A position whose take-profit level cannot be computed is stuck
    as well: when [entry * (1 + tp / 100)] raises (an entry price or a
    target that is no number, or an integer too large for a float), every
    evaluation of the instrument raises before a message is sent or a
    field assigned, and the world stays as it was. *)
Theorem evaluate_without_level (symbol : string) (b : bars) (w : world)
    (r : gmap string value) (ip entry : value) :
  state w !! symbol = Some (VDict r) →
  r !! "in_position" = Some ip →
  truthy ip = true →
  r !! "entry_price" = Some entry →
  take_profit_level entry (default (VInt TAKE_PROFIT) (r !! "take_profit")) = Raise →
  evaluate symbol b w = (Raise, w).
Proof.
  intros Hr Hip Htr Hentry HL.
  unfold evaluate. rewrite bind_get_state.
  rewrite (py_getitem_dict _ _ _ Hr), bind_lift_ok.
  rewrite (py_getitem_dict _ _ _ Hip), bind_lift_ok, Htr. cbn [negb].
  rewrite (py_getitem_dict _ _ _ Hentry), bind_lift_ok.
  unfold py_get at 1. rewrite bind_lift_ok, HL. done.
Qed.

(** X17. With an entry price of zero the stop-loss can never complete: as
    soon as the price is at or below the stop level (and under the
    take-profit level), formatting the notification divides by the entry
    price, the evaluation raises, and the position stays open. *)
Theorem evaluate_zero_entry_stop_raises (symbol : string) (b : bars) (w : world)
    (r : gmap string value) (ip entry : value) (e : num) (L : spec_float) :
  state w !! symbol = Some (VDict r) →
  r !! "in_position" = Some ip →
  truthy ip = true →
  r !! "entry_price" = Some entry →
  as_num entry = Ok e →
  num_is_zero e = true →
  take_profit_level entry (default (VInt TAKE_PROFIT) (r !! "take_profit")) = Ok L →
  fleb L (price b) = false →
  fleb (price b) (fmul (to_float e) stop_factor) = true →
  evaluate symbol b w = (Raise, w).
Proof.
  intros Hr Hip Htr Hentry He Hz HL Hnot Hstop.
  unfold evaluate. rewrite bind_get_state.
  rewrite (py_getitem_dict _ _ _ Hr), bind_lift_ok.
  rewrite (py_getitem_dict _ _ _ Hip), bind_lift_ok, Htr. cbn [negb].
  rewrite (py_getitem_dict _ _ _ Hentry), bind_lift_ok.
  unfold py_get at 1. rewrite bind_lift_ok, HL, bind_lift_ok, Hnot.
  rewrite (stop_loss_level_ok _ _ _ _ HL He), bind_lift_ok, Hstop.
  unfold format_stoploss_log. rewrite He. cbn [obind]. by rewrite Hz.
Qed.

Lemma fleb_nan_l (x : spec_float) : fleb S754_nan x = false.
Proof. done. Qed.

Lemma fleb_nan_r (x : spec_float) : fleb x S754_nan = false.
Proof. by destruct x. Qed.

(** X18. A close of NaN closes nothing: for a position whose levels can be
    computed, neither exit is taken when the price is NaN, and the
    position is still open afterwards. *)
Theorem nan_price_closes_nothing (symbol : string) (b : bars) (w : world)
    (r : gmap string value) (ip entry : value) (e : num) (L : spec_float) :
  symbol ≠ "global_last_msg" →
  state w !! symbol = Some (VDict r) →
  r !! "in_position" = Some ip →
  truthy ip = true →
  r !! "entry_price" = Some entry →
  as_num entry = Ok e →
  take_profit_level entry (default (VInt TAKE_PROFIT) (r !! "take_profit")) = Ok L →
  price b = S754_nan →
  ∃ o w', evaluate symbol b w = (o, w')
    ∧ o ≠ Ok TookProfit ∧ o ≠ Ok StoppedOut
    ∧ field_of (state w') symbol "in_position" = Some ip
    ∧ field_of (state w') symbol "entry_price" = Some entry.
Proof.
  intros Hne Hr Hip Htr Hentry He HL Hnan.
  destruct (evaluate_open clock credentials render chunks symbol b w r ip entry e L
              Hne Hr Hip Htr Hentry He HL) as (o & w' & Hev & Hcase).
  rewrite Hnan, fleb_nan_r, fleb_nan_l in Hcase.
  exists o, w'. split; [done|].
  destruct (crossed_up _ _ _ _ && py_ne_int _ _).
  - destruct Hcase as (Ho & Hsame & _).
    split_and!; [by destruct Ho as [-> | ->]..| |].
    + erewrite same_positions_field; [|done|apply lookup_insert_eq|done|done].
      by simplify_map_eq.
    + erewrite same_positions_field; [|done|apply lookup_insert_eq|done|done].
      by simplify_map_eq.
  - destruct Hcase as [-> ->]. unfold field_of, record_of. rewrite Hr.
    by split_and!.
Qed.

(** X19. An average of NaN on either 4h bar opens nothing: the instrument
    stays flat and the world unchanged. *)
Theorem nan_average_opens_nothing (symbol : string) (b : bars) (w : world)
    (r : gmap string value) (ip : value) :
  state w !! symbol = Some (VDict r) →
  r !! "in_position" = Some ip →
  truthy ip = false →
  prev_short b = S754_nan ∨ prev_long b = S754_nan
  ∨ last_short b = S754_nan ∨ last_long b = S754_nan →
  evaluate symbol b w = (Ok Stay, w).
Proof.
  intros Hr Hip Hfalse Hnan.
  destruct (evaluate_flat clock credentials render chunks symbol b w r ip Hr Hip Hfalse)
    as (o & w' & Hev & Hcase).
  assert (crossed_up (prev_short b) (prev_long b) (last_short b) (last_long b) = false)
    as Hc.
  { unfold crossed_up, fltb, SFltb.
    destruct Hnan as [-> |[-> |[-> | ->]]]; cbn.
    - done.
    - by destruct (prev_short b).
    - rewrite andb_false_iff. right. by destruct (last_long b).
    - by rewrite andb_false_r. }
  rewrite Hc in Hcase. destruct Hcase as [-> ->]. done.
Qed.

(** ** Fetching the bars *)

Lemma iloc_back_ok (l : list spec_float) (k : nat) :
  (1 ≤ k ≤ length l)%nat → ∃ x, iloc_back l k = Ok x ∧ rev l !! pred k = Some x.
Proof.
  intros Hk. unfold iloc_back.
  destruct (rev l !! pred k) as [x|] eqn:Hx; [eauto|].
  apply lookup_ge_None in Hx. rewrite length_rev in Hx. lia.
Qed.

(** X20. An instrument is skipped, with the world left exactly as it was,
    when its 4h frame has fewer than 202 bars or its daily frame fewer
    than 201; with 202 and 201 bars or more (and averages as long as
    their frames) it is evaluated on the last close and on the last two
    values of each average. *)
Theorem fetch_bounds (symbol : string) (w : world) :
  (∀ span l, length (ewm_mean span l) = length l) →
  let df_4h := download symbol "4h" in
  let df_1d := download symbol "1d" in
  ((length df_4h < 202)%nat ∨ (length df_1d < 201)%nat →
     fetch download ewm_mean symbol = Ok None ∧ process symbol w = (Ok (), w))
  ∧ ((202 ≤ length df_4h)%nat → (201 ≤ length df_1d)%nat →
       ∃ b, fetch download ewm_mean symbol = Ok (Some b)
         ∧ rev df_4h !! 0%nat = Some (price b)
         ∧ rev (ewm_mean EMA_SHORT df_4h) !! 0%nat = Some (last_short b)
         ∧ rev (ewm_mean EMA_LONG df_4h) !! 0%nat = Some (last_long b)
         ∧ rev (ewm_mean EMA_SHORT df_4h) !! 1%nat = Some (prev_short b)
         ∧ rev (ewm_mean EMA_LONG df_4h) !! 1%nat = Some (prev_long b)
         ∧ rev (ewm_mean 100 df_1d) !! 0%nat = Some (daily_ema100 b)
         ∧ rev (ewm_mean 200 df_1d) !! 0%nat = Some (daily_ema200 b)
         ∧ rev (ewm_mean 100 df_1d) !! 1%nat = Some (prev_ema100 b)
         ∧ rev (ewm_mean 200 df_1d) !! 1%nat = Some (prev_ema200 b)).
Proof.
  intros Hlen df_4h df_1d.
  assert (Z.max EMA_LONG EMA_SHORT + 2 = 202) as Hmax by done.
  split.
  - intros Hshort.
    assert (fetch download ewm_mean symbol = Ok None) as Hf.
    { unfold fetch. fold df_4h df_1d. rewrite Hmax.
      destruct (Nat.eqb_spec (length df_4h) 0) as [|Hnz]; [done|]. cbn [orb].
      destruct (Z.ltb_spec (Z.of_nat (length df_4h)) 202) as [|Hge]; [done|].
      destruct (iloc_back_ok df_4h 1) as (x & -> & _); [lia|]. cbn [obind].
      destruct (Nat.eqb_spec (length df_1d) 0) as [|Hnz1]; [done|]. cbn [orb].
      destruct (Z.ltb_spec (Z.of_nat (length df_1d)) 201) as [|Hge1]; [done|].
      lia. }
    split; [done|]. unfold process, try_except, bind, lift. by rewrite Hf.
  - intros H4 H1. unfold fetch. fold df_4h df_1d. rewrite Hmax.
    destruct (Nat.eqb_spec (length df_4h) 0) as [|_]; [lia|]. cbn [orb].
    destruct (Z.ltb_spec (Z.of_nat (length df_4h)) 202) as [|_]; [lia|].
    destruct (iloc_back_ok df_4h 1) as (x & -> & Hx); [lia|]. cbn [obind].
    destruct (Nat.eqb_spec (length df_1d) 0) as [|_]; [lia|]. cbn [orb].
    destruct (Z.ltb_spec (Z.of_nat (length df_1d)) 201) as [|_]; [lia|].
    destruct (iloc_back_ok (ewm_mean EMA_SHORT df_4h) 2) as (ps & -> & Hps);
      [rewrite Hlen; lia|].
    destruct (iloc_back_ok (ewm_mean EMA_LONG df_4h) 2) as (pl & -> & Hpl);
      [rewrite Hlen; lia|].
    destruct (iloc_back_ok (ewm_mean EMA_SHORT df_4h) 1) as (ls & -> & Hls);
      [rewrite Hlen; lia|].
    destruct (iloc_back_ok (ewm_mean EMA_LONG df_4h) 1) as (ll & -> & Hll);
      [rewrite Hlen; lia|].
    destruct (iloc_back_ok (ewm_mean 100 df_1d) 2) as (p1 & -> & Hp1);
      [rewrite Hlen; lia|].
    destruct (iloc_back_ok (ewm_mean 200 df_1d) 2) as (p2 & -> & Hp2);
      [rewrite Hlen; lia|].
    destruct (iloc_back_ok (ewm_mean 100 df_1d) 1) as (d1 & -> & Hd1);
      [rewrite Hlen; lia|].
    destruct (iloc_back_ok (ewm_mean 200 df_1d) 1) as (d2 & -> & Hd2);
      [rewrite Hlen; lia|].
    cbn [obind]. eexists. split; [done|]. cbn. by split_and!.
Qed.

End Healthy.

(** ** Downloads with retries *)

Lemma safe_download_loop_spec (yf : nat → reply) (pause : Z) (left : nat) (n : net) :
  0 ≤ pause →
  (∃ i f, (i < left)%nat
          ∧ (∀ j, (j < i)%nat → unusable (yf (calls n + j)%nat))
          ∧ yf (calls n + i)%nat = Frame f ∧ f ≠ []
          ∧ safe_download_loop yf pause left n
            = (Ok f, {| calls := calls n + S i; slept := slept n + Z.of_nat i * pause |}))
  ∨ ((∀ j, (j < left)%nat → unusable (yf (calls n + j)%nat))
     ∧ safe_download_loop yf pause left n
       = (Ok [], {| calls := calls n + left; slept := slept n + Z.of_nat left * pause |})).
Proof.
  intros Hp. revert n. induction left as [|left IH]; intros [c s].
  - right. split; [intros j Hj; lia|]. cbn. do 2 f_equal; [lia|lia].
  - cbn [safe_download_loop calls slept].
    assert (unusable (yf c) ∨ ∃ x xs, yf c = Frame (x :: xs)) as [Hu|(x & xs & Hx)].
    { destruct (yf c) as [|[|x xs]]; [left; by left|left; by right|right; eauto]. }
    + assert (match yf c with
              | Frame (x :: xs) =>
                  (Ok (x :: xs), {| calls := S c; slept := s |})
              | _ => if pause <? 0 then (Raise, {| calls := S c; slept := s |})
                     else safe_download_loop yf pause left
                            {| calls := S c; slept := s + pause |}
              end = safe_download_loop yf pause left {| calls := S c; slept := s + pause |})
        as ->.
      { destruct (Z.ltb_spec pause 0); [lia|]. by destruct Hu as [-> | ->]. }
      destruct (IH {| calls := S c; slept := s + pause |})
        as [(i & f & Hi & Hbefore & Hat & Hf & ->)|[Hall ->]]; cbn [calls slept] in *.
      * left. exists (S i), f. split_and!; [lia| |by rewrite <- Hat; f_equal; lia|done|].
        -- intros [|j] Hj; [by rewrite Nat.add_0_r|].
           replace (c + S j)%nat with (S c + j)%nat by lia. apply Hbefore. lia.
        -- do 2 f_equal; lia.
      * right. split.
        -- intros [|j] Hj; [by rewrite Nat.add_0_r|].
           replace (c + S j)%nat with (S c + j)%nat by lia. apply Hall. lia.
        -- do 2 f_equal; lia.
    + rewrite Hx. left. exists 0%nat, (x :: xs). cbn [calls slept].
      split_and!; [lia|intros j Hj; lia|by rewrite Nat.add_0_r|done|].
      do 2 f_equal; lia.
Qed.

(** X21. [safe_download] returns the first non-empty frame among its first
    [retries] calls: when call [i] is the first to deliver one, that frame
    is returned after [i+1] calls and [i] pauses. *)
Theorem safe_download_first_frame (yf : nat → reply) (retries pause : Z) (n : net)
    (i : nat) (f : list spec_float) :
  0 ≤ pause →
  Z.of_nat i < retries →
  (∀ j, (j < i)%nat → unusable (yf (calls n + j)%nat)) →
  yf (calls n + i)%nat = Frame f → f ≠ [] →
  safe_download yf retries pause n
  = (Ok f, {| calls := calls n + S i; slept := slept n + Z.of_nat i * pause |}).
Proof.
  intros Hp Hi Hbefore Hat Hf. unfold safe_download.
  destruct (safe_download_loop_spec yf pause (Z.to_nat retries) n Hp)
    as [(i' & f' & Hi' & Hbefore' & Hat' & Hf' & ->)|[Hall _]].
  - assert (i' = i) as ->.
    { destruct (Nat.lt_trichotomy i' i) as [Hlt|[->|Hlt]]; [|done|].
      - destruct (Hbefore i' Hlt) as [Hu|Hu]; rewrite Hat' in Hu; simplify_eq.
      - destruct (Hbefore' i Hlt) as [Hu|Hu]; rewrite Hat in Hu; simplify_eq. }
    rewrite Hat in Hat'. by simplify_eq.
  - destruct (Hall i) as [Hu|Hu]; [lia|rewrite Hat in Hu..]; simplify_eq.
Qed.

(** X22. When each of the first [retries] calls raises or delivers an empty
    frame, [safe_download] returns the empty frame after exactly
    [retries] calls, having paused after every one of them, the last
    included. *)
Theorem safe_download_all_fail (yf : nat → reply) (retries pause : Z) (n : net) :
  0 ≤ pause →
  (∀ j, Z.of_nat j < retries → unusable (yf (calls n + j)%nat)) →
  safe_download yf retries pause n
  = (Ok [], {| calls := calls n + Z.to_nat retries;
               slept := slept n + Z.of_nat (Z.to_nat retries) * pause |}).
Proof.
  intros Hp Hall. unfold safe_download.
  destruct (safe_download_loop_spec yf pause (Z.to_nat retries) n Hp)
    as [(i & f & Hi & _ & Hat & Hf & _)|[_ ->]]; [|done].
  destruct (Hall i) as [Hu|Hu]; [lia|rewrite Hat in Hu..]; simplify_eq.
Qed.

(** ** Log rotation *)

Lemma backup_name_inj (i j : nat) : backup_name i = backup_name j → i = j.
Proof.
  unfold backup_name. intros H.
  apply String.app_inj in H. apply String.app_inj in H.
  by apply pretty_nat_inj in H.
Qed.

Lemma backup_name_not_log (i : nat) : backup_name i ≠ LOG_FILE.
Proof.
  unfold backup_name. intros H.
  assert (LOG_FILE +:+ ("." +:+ pretty i) = LOG_FILE +:+ "") as H'.
  { by rewrite H. }
  apply String.app_inj in H'. done.
Qed.

Section LogsProps.

Variable blob : Type.
Variable getsize : blob → Z.

Local Abbreviation shift_backup := (shift_backup blob).
Local Abbreviation rotate_logs := (rotate_logs blob getsize).

(** The loop that renumbers the backups [n], [n-1], ..., [1]. *)
Lemma shift_backups (n : nat) (d : gmap string blob) :
  let d' := foldl shift_backup d (rev (seq 1 n)) in
  ((1 ≤ n)%nat → d' !! backup_name 1 = None)
  ∧ (∀ j, (2 ≤ j ≤ n)%nat → d' !! backup_name j = d !! backup_name (j - 1))
  ∧ ((1 ≤ n)%nat →
       d' !! backup_name (S n)
       = match d !! backup_name n with
         | Some x => Some x
         | None => d !! backup_name (S n)
         end)
  ∧ (∀ p, (∀ j, (1 ≤ j ≤ S n)%nat → p ≠ backup_name j) → d' !! p = d !! p).
Proof.
  revert d. induction n as [|n IH]; intros d; cbn zeta.
  - cbn. split_and!; [lia|intros; lia|lia|done].
  - rewrite seq_S, rev_app_distr. cbn [rev app foldl Nat.add].
    set (d1 := shift_backup d (S n)).
    destruct (IH d1) as (H1 & Hmid & Htop & Hout). cbn zeta in *.
    assert (∀ p, p ≠ backup_name (S n) → p ≠ backup_name (S (S n)) →
              d1 !! p = d !! p) as Hd1.
    { intros p Hp Hp'. unfold d1, shift_backup, shift_backup, replace_if_exists.
      destruct (d !! backup_name (S n)); [|done].
      rewrite lookup_insert_ne by done. by rewrite lookup_delete_ne. }
    assert (d1 !! backup_name (S n) = None) as Hgone.
    { unfold d1, shift_backup, shift_backup, replace_if_exists.
      destruct (d !! backup_name (S n)) eqn:Hx; [|done].
      rewrite lookup_insert_ne by (intros H%backup_name_inj; lia).
      apply lookup_delete_eq. }
    assert (d1 !! backup_name (S (S n))
            = match d !! backup_name (S n) with
              | Some x => Some x
              | None => d !! backup_name (S (S n))
              end) as Hnew.
    { unfold d1, shift_backup, shift_backup, replace_if_exists.
      destruct (d !! backup_name (S n)) eqn:Hx; [|done].
      apply lookup_insert_eq. }
    assert (∀ i j : nat, i ≠ j → backup_name i ≠ backup_name j) as Hne.
    { intros i j Hij H%backup_name_inj. done. }
    split_and!.
    + intros _. destruct n as [|n].
      * cbn. exact Hgone.
      * rewrite H1 by lia. done.
    + intros j Hj. destruct (decide (j = S n)) as [->|Hjn].
      * replace (S n - 1)%nat with n by lia. destruct n as [|n]; [lia|].
        rewrite Htop by lia. rewrite Hgone.
        rewrite Hd1 by (apply Hne; lia). by destruct (d !! backup_name (S n)).
      * rewrite Hmid by lia. apply Hd1; apply Hne; lia.
    + intros _. rewrite Hout; [exact Hnew|]. intros j Hj. apply Hne. lia.
    + intros p Hp. rewrite Hout by (intros j Hj; apply Hp; lia).
      apply Hd1; apply Hp; lia.
Qed.

(** X23. [rotate_logs] does nothing while [log.txt] is missing or smaller
    than [MAX_LOG_SIZE].  From that size on it moves [log.txt] to
    [log.txt.1] and every backup [log.txt.i], for [i] from 1 to 49, to
    [log.txt.(i+1)]; the old [log.txt.50] is dropped when [log.txt.49]
    exists and kept otherwise; no other file is touched. *)
Theorem rotate_logs_spec (d : gmap string blob) :
  ((d !! LOG_FILE = None ∨ ∃ f, d !! LOG_FILE = Some f ∧ getsize f < MAX_LOG_SIZE) →
     rotate_logs d = d)
  ∧ (∀ f, d !! LOG_FILE = Some f → MAX_LOG_SIZE ≤ getsize f →
       rotate_logs d !! LOG_FILE = None
       ∧ rotate_logs d !! backup_name 1 = Some f
       ∧ (∀ j, (2 ≤ j ≤ 49)%nat →
            rotate_logs d !! backup_name j = d !! backup_name (j - 1))
       ∧ rotate_logs d !! backup_name 50
         = match d !! backup_name 49 with
           | Some x => Some x
           | None => d !! backup_name 50
           end
       ∧ (∀ p, p ≠ LOG_FILE → (∀ j, (1 ≤ j ≤ 50)%nat → p ≠ backup_name j) →
            rotate_logs d !! p = d !! p)).
Proof.
  split.
  - unfold rotate_logs, rotate_logs. intros [->|(f & -> & Hf)]; [done|].
    destruct (Z.leb_spec MAX_LOG_SIZE (getsize f)); [lia|done].
  - intros f Hlog Hsize. unfold rotate_logs, rotate_logs. rewrite Hlog.
    destruct (Z.leb_spec MAX_LOG_SIZE (getsize f)) as [_|]; [|lia].
    change (BACKUP_COUNT - 1)%nat with 49%nat.
    destruct (shift_backups 49 d) as (H1 & Hmid & Htop & Hout). cbn zeta in *.
    set (d' := foldl shift_backup d (rev (seq 1 49))) in *.
    assert (d' !! LOG_FILE = Some f) as Hlog'.
    { rewrite Hout; [done|]. intros j _ H. by apply (backup_name_not_log j). }
    unfold replace_if_exists. rewrite Hlog'.
    assert (∀ j, LOG_FILE ≠ backup_name j) as Hnl.
    { intros j H. by apply (backup_name_not_log j). }
    assert (∀ i j : nat, i ≠ j → backup_name i ≠ backup_name j) as Hne.
    { intros i j Hij H%backup_name_inj. done. }
    split_and!.
    + rewrite lookup_insert_ne by (apply not_eq_sym, Hnl). apply lookup_delete_eq.
    + apply lookup_insert_eq.
    + intros j Hj. rewrite lookup_insert_ne by (apply Hne; lia).
      rewrite lookup_delete_ne by apply Hnl. apply Hmid. lia.
    + rewrite lookup_insert_ne by (apply Hne; lia).
      rewrite lookup_delete_ne by apply Hnl. apply Htop. lia.
    + intros p Hp Hpj. rewrite lookup_insert_ne by (apply not_eq_sym, Hpj; lia).
      rewrite lookup_delete_ne by done. apply Hout. exact Hpj.
Qed.

End LogsProps.

(** ** Start-up *)

Section StartupProps.

Variable clock : nat → Z.
Variable credentials : bool.
Variable chunks : value → nat.

Lemma startup_disk (greeting : string) (w : world) :
  disk (startup clock credentials chunks greeting w).2 !! STATE_FILE
  = Some (Whole (VDict (load_state (disk w)))).
Proof.
  unfold startup, send_telegram, bind, modify, get_state, save_state, post.
  destruct credentials; cbn; apply save_ops_canonical.
Qed.

(** X24. After the start-up sequence the first cycle loads a snapshot with
    the full schema, whether [state.json] was missing, did not parse, or
    held a dictionary whose instrument records are dictionaries: what the
    first [load_state] lacked (the global record, on the fallback paths)
    the second one fills in. *)
Theorem startup_well_formed (greeting : string) (w : world) :
  (∀ s, disk w !! STATE_FILE = Some (Whole (VDict s)) →
     ∀ k v, k ∈ ASSETS → s !! k = Some v → ∃ r, v = VDict r) →
  well_formed (load_state (disk (startup clock credentials chunks greeting w).2)).
Proof.
  intros Hdict.
  eapply (load_state_merge_core _ _ (startup_disk greeting w)).
  intros k v Hk Hv.
  assert (load_state (disk w) = default_state
          ∨ ∃ s, disk w !! STATE_FILE = Some (Whole (VDict s))) as [Hl|[s Hs]].
  { destruct (disk w !! STATE_FILE) as [f|] eqn:Hf;
      [|left; unfold load_state; by rewrite Hf].
    destruct f as [| |doc|]; try (left; unfold load_state; by rewrite Hf).
    destruct doc; try (left; by eapply load_state_not_object_core).
    right. eauto. }
  - rewrite Hl in Hv. rewrite default_state_lookup in Hv by done. simplify_eq. eauto.
  - destruct (load_state_merge_core (disk w) s Hs (Hdict s Hs)) as (Hin & _).
    rewrite Hin in Hv by done. simplify_eq. eauto.
Qed.

End StartupProps.

(** ** The loop as a whole *)

Section MainProps.

Variable clock : nat → Z.
Variable credentials : bool.
Variable ewm_mean : Z → list spec_float → list spec_float.
Variable render : notice → string.
Variable chunks : value → nat.
Variable feed : nat → string → string → list spec_float.

Hypothesis no_zero_close :
  ∀ i symbol b, fetch (feed i) ewm_mean symbol = Ok (Some b) → is_fzero (price b) = false.

Lemma startup_result (greeting : string) (w : world) :
  ∃ w', startup clock credentials chunks greeting w = (Ok (), w')
        ∧ state w' = load_state (disk w).
Proof.
  unfold startup, send_telegram, bind, modify, get_state, save_state, post.
  destruct credentials; cbn; eauto.
Qed.

Lemma in_step_load (w : world) : in_step w → healthy (load_state (disk w)).
Proof. intros [Hd Hh]. by apply (healthy_load _ (state w)). Qed.

Lemma check_signals_in_step (i : nat) (w : world) :
  healthy (load_state (disk w)) →
  ∃ w', check_signals clock credentials (feed i) ewm_mean render chunks w = (Ok (), w')
        ∧ in_step w'.
Proof.
  intros Hh.
  pose proof (check_signals_keeps_healthy_core clock credentials (feed i) ewm_mean
                render chunks w (no_zero_close i) Hh) as [Hs _].
  pose proof (check_signals_persists_core clock credentials (feed i) ewm_mean
                render chunks w) as Hd.
  pose proof (check_signals_unfold clock credentials (feed i) ewm_mean
                render chunks w) as Hu. cbv zeta in Hu.
  rewrite Hu in *. cbn [snd] in *. eexists. split; [reflexivity|]. by split.
Qed.

Lemma rounds_in_step (n i : nat) (w : world) :
  in_step w →
  ∃ w', rounds clock credentials ewm_mean render chunks feed n i w = (Ok (), w')
        ∧ in_step w'.
Proof.
  revert i w. induction n as [|n IH]; intros i w Hw.
  - exists w. by split.
  - cbn [rounds]. unfold bind.
    destruct (check_signals_in_step i w (in_step_load w Hw)) as (w1 & -> & H1).
    by apply IH.
Qed.

(** X25. The bot never leaves the healthy snapshots, whatever the
    provider delivers from round to round.  Started on a disk from which
    [load_state] gives a healthy snapshot (a machine without a
    [state.json], for one), and as long as no downloaded bar closes at
    zero, the start-up and any number of rounds of the loop complete
    without an exception, and at the end of every round [state.json]
    holds the snapshot in memory, which is healthy: every instrument flat
    at the base target or open at a non-zero float entry price, every
    dedup slot [None] or a record with a string text and an integer
    timestamp. *)
Theorem main_keeps_healthy (greeting : string) (n : nat) (w : world) :
  healthy (load_state (disk w)) →
  ∃ w', main clock credentials ewm_mean render chunks feed greeting n w
        = (Ok (), w')
        ∧ disk w' !! STATE_FILE = Some (Whole (VDict (state w')))
        ∧ healthy (state w').
Proof.
  intros Hh. unfold main, bind.
  destruct (startup_result greeting w) as (w0 & Hs & Hst).
  pose proof (startup_disk clock credentials chunks greeting w) as Hd.
  rewrite Hs in *. cbn [snd] in Hd.
  assert (in_step w0) as H0.
  { split; rewrite Hst; done. }
  destruct (rounds_in_step n 0 w0 H0) as (w' & Hr & Hd' & Hh').
  exists w'. by split_and!.
Qed.

End MainProps.

(** * The further properties at concrete inputs *)


Lemma healthy_flat : healthy flat_state.
Proof.
  destruct healthy_default as [Hpos [Hsym Hglob]]. unfold flat_state.
  split; [|split].
  - intros k Hk. rewrite lookup_insert_ne; [by apply Hpos|].
    intros <-. by apply global_not_asset.
  - intros k Hk. unfold symbol_last, record_of. rewrite lookup_insert_ne by done.
    by apply Hsym.
  - by left.
Qed.

Lemma load_state_merge_witness :
  (partial_disk !! STATE_FILE = Some (Whole (VDict partial_state)))
  ∧ load_state partial_disk !! "ETH-USD" = Some (VDict default_record)
  ∧ (∃ r, load_state partial_disk !! "BTC-USD" = Some (VDict r)
          ∧ r !! "in_position" = Some (VBool true)
          ∧ r !! "take_profit" = Some (VInt TAKE_PROFIT))
  ∧ load_state partial_disk !! "global_last_msg" = Some VNone.
Proof.
  assert (∀ k v, k ∈ ASSETS → partial_state !! k = Some v → ∃ r, v = VDict r) as Hdict.
  { intros k v _ Hv. unfold partial_state in Hv.
    apply lookup_singleton_Some in Hv as [_ <-]. eexists. reflexivity. }
  destruct (load_state_merge partial_disk partial_state eq_refl Hdict)
    as (Hin & Hg & _ & _).
  split; [reflexivity|]. split_and!.
  - rewrite Hin by (apply (bool_decide_unpack _); vm_compute; exact I).
    vm_compute. reflexivity.
  - eexists. split; [apply Hin; apply (bool_decide_unpack _); vm_compute; exact I|].
    split; vm_compute; reflexivity.
  - rewrite Hg. reflexivity.
Defined.

Lemma load_state_has_assets_witness :
  "NVDA" ∈ ASSETS ∧ is_Some (load_state partial_disk !! "NVDA").
Proof.
  assert ("NVDA" ∈ ASSETS) as H by (apply (bool_decide_unpack _); vm_compute; exact I).
  split; [exact H|]. exact (load_state_has_assets partial_disk "NVDA" H).
Defined.

Lemma load_state_not_object_witness :
  load_state {[ STATE_FILE := Whole (VList [VStr "BTC-USD"]) ]} = default_state.
Proof.
  apply (load_state_not_object _ (VList [VStr "BTC-USD"])); [reflexivity|].
  intros s. discriminate.
Defined.

Lemma save_state_footprint_witness :
  ("log.txt" ≠ STATE_FILE ∧ "log.txt" ≠ tmp_file)
  ∧ save_interrupted sample_chunks 3 flat_state (disk flat_world) !! "log.txt"
    = disk flat_world !! "log.txt".
Proof.
  split; [split; discriminate|].
  apply (proj2 (save_state_footprint sample_chunks flat_state flat_world)); discriminate.
Defined.

Lemma should_send_other_text_witness :
  record_ok (noted_state (Some (VStr "yesterday"))) "BTC-USD"
  ∧ should_send_at 1000 (noted_state (Some (VStr "yesterday"))) "BTC-USD" "Y" = Ok true.
Proof.
  assert (record_ok (noted_state (Some (VStr "yesterday"))) "BTC-USD") as Hrec.
  { right. eexists. vm_compute. reflexivity. }
  split; [exact Hrec|].
  apply should_send_other_text; [exact Hrec|vm_compute; discriminate..].
Defined.

Lemma should_send_bad_timestamp_witness :
  as_num (VStr "yesterday") = Raise
  ∧ should_send_at 1000 (noted_state (Some (VStr "yesterday"))) "BTC-USD" "X" = Raise.
Proof.
  split; [reflexivity|].
  apply (should_send_bad_timestamp 1000 (noted_state (Some (VStr "yesterday")))
           {[ "last_msg" := VDict (<["ts" := VStr "yesterday"]> {[ "text" := VStr "X" ]}) ]}
           (<["ts" := VStr "yesterday"]> {[ "text" := VStr "X" ]})
           "BTC-USD" "X" (VStr "yesterday"));
    vm_compute; reflexivity.
Defined.

Lemma should_send_missing_timestamp_witness :
  should_send_at 30 (noted_state None) "BTC-USD" "X" = Ok false
  ∧ should_send_at 1000 (noted_state None) "BTC-USD" "X" = Ok true.
Proof.
  split.
  - apply (should_send_missing_timestamp 30 (noted_state None)
             {[ "last_msg" := VDict {[ "text" := VStr "X" ]} ]}
             {[ "text" := VStr "X" ]} "BTC-USD" "X");
      try (vm_compute; reflexivity). vm_compute. discriminate.
  - apply (should_send_missing_timestamp 1000 (noted_state None)
             {[ "last_msg" := VDict {[ "text" := VStr "X" ]} ]}
             {[ "text" := VStr "X" ]} "BTC-USD" "X");
      try (vm_compute; reflexivity). vm_compute. discriminate.
Defined.

Lemma send_telegram_records_first_witness :
  "BTC-USD" ≠ "global_last_msg"
  ∧ ∃ o w', send_telegram sample_clock true sample_chunks "X" (Some "BTC-USD") flat_world
            = (o, w')
      ∧ (trace w' = trace flat_world
         ∨ disk w' !! STATE_FILE = Some (Whole (VDict (state w')))).
Proof.
  split; [discriminate|].
  destruct (send_telegram_records_first sample_clock true sample_chunks
              "X" "BTC-USD" flat_world) as (o & w' & Hev & Hcase); [discriminate|].
  exists o, w'. split; [exact Hev|].
  destruct Hcase as [(_ & _ & Htr)|(_ & _ & Hd & _)]; [left|right]; assumption.
Defined.

Lemma send_telegram_twice_witness :
  let first := send_telegram sample_clock true sample_chunks "X" (Some "BTC-USD")
                 flat_world in
  (trace first.2 ≠ trace flat_world
   ∧ sample_clock 2 - sample_clock 1 < 60)
  ∧ send_telegram sample_clock true sample_chunks "X" (Some "BTC-USD") first.2
    = (Ok (), tick first.2).
Proof.
  intros first.
  assert (trace first.2 ≠ trace flat_world) as Htr by (vm_compute; discriminate).
  assert (sample_clock 2 - sample_clock 1 < 60) as Hclock by (vm_compute; reflexivity).
  split; [split; assumption|].
  apply send_telegram_twice; [discriminate|exact Htr|exact Hclock].
Defined.

Lemma process_only_touches_witness :
  ("ETH-USD" ≠ "BTC-USD" ∧ "ETH-USD" ≠ "global_last_msg")
  ∧ state (process sample_clock true calm_download (λ _ l, l) sample_render
             sample_chunks "BTC-USD" flat_world).2 !! "ETH-USD"
    = state flat_world !! "ETH-USD".
Proof.
  split; [split; discriminate|].
  apply process_only_touches; discriminate.
Defined.

Lemma cycle_carries_over_witness :
  let w' := (check_signals sample_clock true busy_download sample_ewm sample_render
               sample_chunks lively_world).2 in
  well_formed (load_state (disk lively_world))
  ∧ load_state (disk w') = state w'
  ∧ field_of (state w') "BTC-USD" "in_position" = Some (VBool true)
  ∧ field_of (state w') "ETH-USD" "in_position" = Some (VBool false)
  ∧ global_last (state w') = sent_record "TP ETH-USD" 1700000003.
Proof.
  intros w'.
  assert (well_formed (load_state (disk lively_world))) as Hwf.
  { apply well_formed_b_spec. vm_compute. reflexivity. }
  split; [exact Hwf|]. split.
  - exact (proj1 (cycle_carries_over sample_clock true busy_download sample_ewm
                    sample_render sample_chunks lively_world Hwf)).
  - split_and!; vm_compute; reflexivity.
Defined.

Lemma evaluate_keeps_healthy_witness :
  ("BTC-USD" ∈ ASSETS ∧ healthy (state flat_world)
   ∧ is_fzero (price (crossing_bars 100)) = false)
  ∧ ∃ t w', evaluate sample_clock true sample_render sample_chunks
              "BTC-USD" (crossing_bars 100) flat_world = (Ok t, w')
            ∧ healthy (state w').
Proof.
  assert ("BTC-USD" ∈ ASSETS) as Hin by (apply (bool_decide_unpack _); vm_compute; exact I).
  split; [split_and!; [exact Hin|exact healthy_flat|reflexivity]|].
  apply evaluate_keeps_healthy; [exact Hin|exact healthy_flat|reflexivity].
Defined.

Lemma check_signals_keeps_healthy_witness :
  let w' := (check_signals sample_clock true busy_download sample_ewm sample_render
               sample_chunks fresh_world).2 in
  healthy (load_state (disk fresh_world))
  ∧ healthy (state w') ∧ healthy (load_state (disk w'))
  ∧ field_of (state w') "BTC-USD" "in_position" = Some (VBool true)
  ∧ field_of (state w') "BTC-USD" "entry_price" = Some (VFloat (float_of_Z 101))
  ∧ symbol_last (state w') "BTC-USD" = sent_record "ALIM BTC-USD" 1700000001.
Proof.
  intros w'.
  assert (healthy (load_state (disk fresh_world))) as Hstart by exact healthy_default.
  split; [exact Hstart|].
  destruct (check_signals_keeps_healthy sample_clock true busy_download sample_ewm
              sample_render sample_chunks fresh_world) as (_ & Hs & Hl);
    [|exact Hstart|].
  { intros symbol b Hf. unfold fetch, busy_download in Hf.
    destruct (String.eqb symbol "BTC-USD");
      [|destruct (String.eqb symbol "ETH-USD")];
      vm_compute in Hf; injection Hf as <-; reflexivity. }
  split; [exact Hs|]. split; [exact Hl|].
  split_and!; vm_compute; reflexivity.
Defined.

Lemma evaluate_stuck_without_entry_witness :
  as_num VNone = Raise
  ∧ evaluate sample_clock true sample_render sample_chunks "BTC-USD"
      (crossing_bars 150) (odd_world VNone)
    = (Raise, odd_world VNone).
Proof.
  split; [reflexivity|].
  apply (evaluate_stuck_without_entry sample_clock true sample_render sample_chunks
           "BTC-USD" (crossing_bars 150) (odd_world VNone) (odd_record VNone)
           (VBool true) VNone);
    vm_compute; reflexivity.
Defined.

Lemma evaluate_zero_entry_stop_raises_witness :
  let zero := VFloat (S754_zero false) in
  let down := bars_at (float_of_Z (-1)) in
  (num_is_zero (NFloat (S754_zero false)) = true
   ∧ fleb (price down) (fmul (S754_zero false) stop_factor) = true)
  ∧ evaluate sample_clock true sample_render sample_chunks "BTC-USD" down (odd_world zero)
    = (Raise, odd_world zero).
Proof.
  intros zero down. split; [split; vm_compute; reflexivity|].
  apply (evaluate_zero_entry_stop_raises sample_clock true sample_render sample_chunks
           "BTC-USD" down (odd_world zero) (odd_record zero) (VBool true) zero
           (NFloat (S754_zero false)) (level_of zero (VInt TAKE_PROFIT)));
    vm_compute; reflexivity.
Defined.

Lemma nan_price_closes_nothing_witness :
  price (bars_at S754_nan) = S754_nan
  ∧ ∃ o w', evaluate sample_clock true sample_render sample_chunks "BTC-USD"
              (bars_at S754_nan) (open_world 40) = (o, w')
            ∧ o ≠ Ok TookProfit ∧ o ≠ Ok StoppedOut
            ∧ field_of (state w') "BTC-USD" "in_position" = Some (VBool true).
Proof.
  split; [reflexivity|].
  destruct (nan_price_closes_nothing sample_clock true sample_render sample_chunks
              "BTC-USD" (bars_at S754_nan) (open_world 40) (open_record 40)
              (VBool true) (VFloat (float_of_Z 100)) (NFloat (float_of_Z 100))
              (level_of (VFloat (float_of_Z 100)) (VInt 40)))
    as (o & w' & Hev & H1 & H2 & Hip & _);
    try (vm_compute; reflexivity); [discriminate|].
  exists o, w'. split_and!; assumption.
Defined.

Lemma nan_average_opens_nothing_witness :
  let b := {| price := float_of_Z 100;
              prev_short := float_of_Z 99; prev_long := float_of_Z 100;
              last_short := S754_nan; last_long := float_of_Z 100;
              prev_ema100 := float_of_Z 90; prev_ema200 := float_of_Z 95;
              daily_ema100 := float_of_Z 90; daily_ema200 := float_of_Z 95 |} in
  last_short b = S754_nan
  ∧ evaluate sample_clock true sample_render sample_chunks "BTC-USD" b flat_world
    = (Ok Stay, flat_world).
Proof.
  intros b. split; [reflexivity|].
  apply (nan_average_opens_nothing sample_clock true sample_render sample_chunks
           "BTC-USD" b flat_world default_record (VBool false));
    try (vm_compute; reflexivity).
  right; right; left. reflexivity.
Defined.

Lemma fetch_bounds_witness :
  (∀ (span : Z) (l : list spec_float), length ((λ _ l, l) span l) = length l)
  ∧ ∃ b, fetch calm_download (λ _ l, l) "BTC-USD" = Ok (Some b)
         ∧ rev (calm_download "BTC-USD" "4h") !! 0%nat = Some (price b).
Proof.
  assert (∀ (span : Z) (l : list spec_float), length ((λ _ l, l) span l) = length l)
    as Hlen by reflexivity.
  split; [exact Hlen|].
  destruct (proj2 (fetch_bounds sample_clock true calm_download (λ _ l, l) sample_render
                     sample_chunks "BTC-USD" flat_world Hlen))
    as (b & Hf & Hp & _); [vm_compute; lia..|].
  exists b. split; assumption.
Defined.

Lemma safe_download_first_frame_witness :
  (0 ≤ 2 ∧ Z.of_nat 2 < 3 ∧ flaky (0 + 2) = Frame [float_of_Z 100])
  ∧ safe_download flaky 3 2 {| calls := 0; slept := 0 |}
    = (Ok [float_of_Z 100], {| calls := 3; slept := 4 |}).
Proof.
  split; [split_and!; [lia|lia|reflexivity]|].
  apply (safe_download_first_frame flaky 3 2 {| calls := 0; slept := 0 |} 2
           [float_of_Z 100]); [lia|lia| |reflexivity|discriminate].
  intros j Hj. left. destruct j as [|[|j]]; [reflexivity|reflexivity|lia].
Defined.

Lemma safe_download_all_fail_witness :
  0 ≤ 2
  ∧ safe_download dead 3 2 {| calls := 0; slept := 0 |}
    = (Ok [], {| calls := 3; slept := 6 |}).
Proof.
  split; [lia|].
  apply (safe_download_all_fail dead 3 2 {| calls := 0; slept := 0 |}); [lia|].
  intros j _. left. reflexivity.
Defined.

Lemma rotate_logs_spec_witness :
  (full_logs !! LOG_FILE = Some MAX_LOG_SIZE ∧ MAX_LOG_SIZE ≤ id MAX_LOG_SIZE)
  ∧ rotate_logs Z id full_logs !! LOG_FILE = None
  ∧ rotate_logs Z id full_logs !! backup_name 1 = Some MAX_LOG_SIZE
  ∧ rotate_logs Z id full_logs !! backup_name 2 = Some 5.
Proof.
  assert (full_logs !! LOG_FILE = Some MAX_LOG_SIZE) as Hlog by (vm_compute; reflexivity).
  assert (MAX_LOG_SIZE ≤ id MAX_LOG_SIZE) as Hsize by (unfold id; lia).
  split; [split; assumption|].
  destruct (proj2 (rotate_logs_spec Z id full_logs) MAX_LOG_SIZE Hlog Hsize)
    as (H0 & H1 & Hmid & _).
  split_and!; [exact H0|exact H1|].
  rewrite (Hmid 2%nat) by lia. vm_compute. reflexivity.
Defined.

Lemma startup_well_formed_witness :
  well_formed
    (load_state (disk (startup sample_clock true sample_chunks "up" fresh_world).2)).
Proof.
  apply startup_well_formed. intros s Hs. vm_compute in Hs. discriminate.
Defined.

Lemma main_keeps_healthy_witness :
  healthy (load_state (disk fresh_world))
  ∧ ∃ w', main sample_clock true sample_ewm sample_render sample_chunks sample_feed
            "up" 3 fresh_world = (Ok (), w')
          ∧ healthy (state w')
          ∧ posts (trace w') = 4%nat
          ∧ field_of (state w') "BTC-USD" "in_position" = Some (VBool false).
Proof.
  assert (healthy (load_state (disk fresh_world))) as Hstart by exact healthy_default.
  split; [exact Hstart|].
  destruct (main_keeps_healthy sample_clock true sample_ewm sample_render sample_chunks
              sample_feed) with (greeting := "up") (n := 3%nat) (w := fresh_world)
    as (w' & Hm & _ & Hh).
  - intros i symbol b Hf. unfold fetch, sample_feed in Hf.
    destruct (String.eqb symbol "BTC-USD"); [destruct i as [|[|[|i]]]|];
      vm_compute in Hf; injection Hf as <-; reflexivity.
  - exact Hstart.
  - exists w'. split; [exact Hm|]. split; [exact Hh|].
    assert (w' = (main sample_clock true sample_ewm sample_render sample_chunks
                    sample_feed "up" 3 fresh_world).2) as -> by (by rewrite Hm).
    split; vm_compute; reflexivity.
Defined.

Lemma evaluate_without_level_witness :
  let big := VInt (10 ^ 400) in
  let w := {| state := <["BTC-USD" := VDict (open_record (10 ^ 400))]> flat_state;
              disk := ∅; ticks := 0; trace := [] |} in
  take_profit_level (VFloat (float_of_Z 100)) big = Raise
  ∧ evaluate sample_clock true sample_render sample_chunks "BTC-USD"
      (crossing_bars 80) w
    = (Raise, w).
Proof.
  intros big w.
  assert (take_profit_level (VFloat (float_of_Z 100)) big = Raise) as HL
    by (vm_compute; reflexivity).
  split; [exact HL|].
  apply (evaluate_without_level sample_clock true sample_render sample_chunks
           "BTC-USD" (crossing_bars 80) w (open_record (10 ^ 400)) (VBool true)
           (VFloat (float_of_Z 100)));
    [vm_compute; reflexivity..|].
  exact HL.
Defined.
